(** * slim-mcp: the SLIM <-> MCP stream bridge

    A shallow embedding of [slim_mcp/mcp_client.py], [slim_mcp/mcp_server.py]
    and [slim_mcp/helpers.py].

    Every coroutine is embedded as a machine whose states are the [await]
    expressions of its body: a step resumes the pending [await] with the value
    it returns or with the exception it raises, runs the Python code up to the
    next [await] (or to the end of the coroutine) and reports the calls made on
    the way.  What the transport, the streams and the consumer do is input. *)

From Stdlib Require Import String Ascii List Bool Arith Lia DecimalString.
Import ListNotations.
Open Scope string_scope.
Open Scope list_scope.

Set Implicit Arguments.

(** ** Python values the bridge handles *)

(** [bytes] payloads and [str] texts are both sequences of 8-bit characters. *)
Definition bytes := string.

(** The exceptions that occur.  [Error msg] is an instance of [Exception] (or a
    subclass) raised by a collaborator, [str(exc)] being [msg];
    [TerminateTaskGroup] is the class declared inside [create_mcp_streams];
    [CancelledError] is [asyncio.CancelledError], which derives from
    [BaseException] only; [ExceptionGroup] is what [asyncio.TaskGroup] raises
    when it is left. *)
#[warnings="-register-all"]
Inductive exn : Type :=
| Error (msg : string)
| TerminateTaskGroup
| CancelledError
| ExceptionGroup (msg : string) (excs : list exn).

(** [isinstance(exc, Exception)]: what an [except Exception] clause catches.
    A group holding a [BaseException]-only leaf is a [BaseExceptionGroup]. *)
Fixpoint is_Exception (exc : exn) : bool :=
  match exc with
  | Error _ => true
  | TerminateTaskGroup => true
  | CancelledError => false
  | ExceptionGroup _ excs => forallb is_Exception excs
  end.

Definition decimal (n : nat) : string := NilEmpty.string_of_uint (Nat.to_uint n).

(** [str(exc)]. *)
Definition str (exc : exn) : string :=
  match exc with
  | Error msg => msg
  | TerminateTaskGroup => EmptyString
  | CancelledError => EmptyString
  | ExceptionGroup msg excs =>
      msg ++ " (" ++ decimal (List.length excs) ++ " sub-exception"
          ++ (if Nat.ltb 1 (List.length excs) then "s" else EmptyString) ++ ")"
  end.

(** [text.startswith(pre)]. *)
Fixpoint startswith (pre text : string) : bool :=
  match pre, text with
  | EmptyString, _ => true
  | String _ _, EmptyString => false
  | String a pre', String b text' => Ascii.eqb a b && startswith pre' text'
  end.

(** [sub in text] on [str]: [sub] occurs in [text] at some position. *)
Fixpoint contains (sub text : string) : bool :=
  startswith sub text ||
  match text with
  | EmptyString => false
  | String _ text' => contains sub text'
  end.

(** The images under [f] of the elements of [l] that have one. *)
Definition keep {A B : Type} (f : A -> option B) : list A -> list B :=
  fix keep_f (l : list A) : list B :=
    match l with
    | [] => []
    | x :: l' =>
        match f x with
        | Some y => y :: keep_f l'
        | None => keep_f l'
        end
    end.

(** The result of a call: the value returned or the exception raised. *)
Inductive result (A : Type) : Type :=
| Returns (a : A)
| Raises (exc : exn).
Arguments Raises {A} exc.

(** What resumes a coroutine suspended at an [await]. *)
Inductive resumption (V : Type) : Type :=
| Value (v : V)
| Throw (exc : exn).
Arguments Throw {V} exc.

(** Running a coroutine on the resumptions its environment provides: the
    state reached and the calls made, or [None] when some resumption is not
    one the pending [await] can receive (a finished coroutine receives none). *)
Fixpoint run {PC V A : Type} (step : PC -> resumption V -> option (PC * list A))
         (pc : PC) (inputs : list (resumption V)) : option (PC * list A) :=
  match inputs with
  | [] => Some (pc, [])
  | i :: inputs' =>
      match step pc i with
      | None => None
      | Some (pc', acts) =>
          match run step pc' inputs' with
          | None => None
          | Some (pc'', acts') => Some (pc'', acts ++ acts')
          end
      end
  end.

(** ** The two pumps of [create_mcp_streams] *)

Section Pumps.

(** [types.JSONRPCMessage] and its two pydantic conversions belong to the
    [mcp] package.  [model_validate_json payload] stands for
    [types.JSONRPCMessage.model_validate_json(received_msg.payload.decode())]
    and [model_dump_json message] for
    [message.model_dump_json(by_alias=True, exclude_none=True).encode()].
    The calls of [logger.debug] and [logger.info] are left out. *)
Variable message : Type.
Variable model_validate_json : bytes -> result message.
Variable model_dump_json : message -> result bytes.

(** The text that marks the end of the session: the only place where
    [mcp_client.py] and [mcp_server.py] differ in [create_mcp_streams]. *)
Variable closed_marker : string.

(** An element of the inbound stream: [types.JSONRPCMessage | Exception]. *)
Definition item : Type := (message + exn)%type.

(** Calls of the pumps on their collaborators, in program order. *)
Inductive action : Type :=
| Forward (x : item)        (* [read_stream_writer.send(x)] has completed *)
| CloseInbound              (* [read_stream_writer.aclose()] *)
| Publish (payload : bytes) (* [session.publish_async(payload, ...)] is called *)
| Acked                     (* [completion.wait_async()] has returned *)
| CloseOutbound             (* [write_stream_reader.aclose()] *)
| LogError (text : string). (* [logger.error(text, exc_info=True)] *)

(** *** [slim_reader] *)

Inductive reader_pc : Type :=
| RReceive                    (* [await session.get_message_async(timeout=None)] *)
| RSendMessage (m : message)  (* [await read_stream_writer.send(message)] *)
| RSendExc (exc : exn)        (* [await read_stream_writer.send(exc)] *)
| RExit (o : result unit).    (* the coroutine is over *)

Inductive reader_value : Type :=
| Received (payload : bytes)  (* the session delivers a message *)
| Delivered.                  (* the consumer took the item sent *)

(** [finally: await read_stream_writer.aclose()], then leave with [o]. *)
Definition reader_finally (o : result unit) : reader_pc * list action :=
  (RExit o, [CloseInbound]).

(** The clause [except Exception as exc] of the loop body, entered with
    [exc] raised inside the inner [try]. *)
Definition reader_except (exc : exn) : reader_pc * list action :=
  if is_Exception exc then
    if contains closed_marker (str exc) then
      reader_finally (Raises TerminateTaskGroup)
    else
      (RSendExc exc, [LogError "Error receiving message"])
  else
    reader_finally (Raises exc).

Definition reader_step (pc : reader_pc) (i : resumption reader_value)
  : option (reader_pc * list action) :=
  match pc, i with
  | RReceive, Value (Received payload) =>
      match model_validate_json payload with
      | Returns m => Some (RSendMessage m, [])
      | Raises exc => Some (reader_except exc)
      end
  | RReceive, Throw exc => Some (reader_except exc)
  | RSendMessage m, Value Delivered => Some (RReceive, [Forward (inl m)])
  | RSendMessage _, Throw exc => Some (reader_except exc)
  | RSendExc exc, Value Delivered =>
      (* [break], then the [finally] clause *)
      let (pc', acts) := reader_finally (Returns tt) in
      Some (pc', Forward (inr exc) :: acts)
  | RSendExc _, Throw exc' => Some (reader_finally (Raises exc'))
  | _, _ => None
  end.

(** *** [slim_writer] *)

Inductive writer_pc : Type :=
| WNext                       (* [async for message in write_stream_reader] *)
| WPublish (payload : bytes)  (* [await session.publish_async(...)] *)
| WWait                       (* [await completion.wait_async()] *)
| WExit (o : result unit).

Inductive writer_value : Type :=
| Taken (m : message)         (* the stream yields the next message *)
| Exhausted                   (* the stream is closed and empty *)
| Completion                  (* [publish_async] returns a completion *)
| Done.                       (* [wait_async] returns *)

(** [finally: await write_stream_reader.aclose()], then leave with [o]. *)
Definition writer_finally (o : result unit) : writer_pc * list action :=
  (WExit o, [CloseOutbound]).

(** The clause [except Exception: logger.error(...); raise] around the body
    of the [async for]. *)
Definition writer_except (exc : exn) : writer_pc * list action :=
  let (pc', acts) := writer_finally (Raises exc) in
  if is_Exception exc then (pc', LogError "Error sending message" :: acts)
  else (pc', acts).

Definition writer_step (pc : writer_pc) (i : resumption writer_value)
  : option (writer_pc * list action) :=
  match pc, i with
  | WNext, Value (Taken m) =>
      match model_dump_json m with
      | Returns payload => Some (WPublish payload, [Publish payload])
      | Raises exc => Some (writer_except exc)
      end
  | WNext, Value Exhausted => Some (writer_finally (Returns tt))
  | WNext, Throw exc => Some (writer_finally (Raises exc))
  | WPublish _, Value Completion => Some (WWait, [])
  | WPublish _, Throw exc => Some (writer_except exc)
  | WWait, Value Done => Some (WNext, [Acked])
  | WWait, Throw exc => Some (writer_except exc)
  | _, _ => None
  end.

(** What the outbound stream and the session do for one message that is
    taken, published and acknowledged. *)
Definition sent_and_acked (m : message) : list (resumption writer_value) :=
  [Value (Taken m); Value Completion; Value Done].

(** The payloads of the messages that the writer is given and that
    serialize. *)
Definition payloads_taken (inputs : list (resumption writer_value)) : list bytes :=
  keep (fun i => match i with
                 | Value (Taken m) =>
                     match model_dump_json m with
                     | Returns payload => Some payload
                     | Raises _ => None
                     end
                 | _ => None
                 end) inputs.

(** A pump starts at the first [await] of its loop. *)
Definition slim_reader := run reader_step RReceive.
Definition slim_writer := run writer_step WNext.

(** *** [create_mcp_streams]: the task group around the pumps *)

(** [force_termination] has no [await]: its first step raises. *)
Inductive force_pc : Type :=
| FCreated
| FExit (o : result unit).

Definition force_termination (pc : force_pc) (i : resumption unit)
  : option (force_pc * list action) :=
  match pc, i with
  | FCreated, Value _ => Some (FExit (Raises TerminateTaskGroup), [])
  | FCreated, Throw exc => Some (FExit (Raises exc), [])
  | FExit _, _ => None
  end.

(** Where the generator [create_mcp_streams] stands. *)
Inductive phase : Type :=
| InBody                          (* suspended at [yield read_stream, write_stream] *)
| Joining (body_exc : option exn) (* [TaskGroup.__aexit__] waits for the tasks *)
| Left (o : result unit).         (* the context manager is left *)

(** The tasks of the group with the [_must_cancel] flag of each, the
    [_aborting], [_errors] and [_parent_cancel_requested] fields of
    [asyncio.TaskGroup], and the calls made so far. *)
Record bridge : Type := {
  reader : reader_pc;
  reader_must_cancel : bool;
  writer : writer_pc;
  writer_must_cancel : bool;
  force : option force_pc;        (* [None]: not created yet *)
  force_must_cancel : bool;
  aborting : bool;
  errors : list exn;
  parent_cancel_requested : bool;
  scope : phase;
  trace : list action
}.

Definition reader_done (pc : reader_pc) : bool :=
  match pc with RExit _ => true | _ => false end.
Definition writer_done (pc : writer_pc) : bool :=
  match pc with WExit _ => true | _ => false end.
Definition force_done (f : option force_pc) : bool :=
  match f with Some FCreated => false | _ => true end.

(** [TaskGroup._abort]: [t.cancel()] on every task that is not done.  A
    cancelled task is resumed with [CancelledError] at its next step. *)
Definition abort (b : bridge) : bridge :=
  {| reader := reader b;
     reader_must_cancel := negb (reader_done (reader b));
     writer := writer b;
     writer_must_cancel := negb (writer_done (writer b));
     force := force b;
     force_must_cancel := negb (force_done (force b));
     aborting := true;
     errors := errors b;
     parent_cancel_requested := parent_cancel_requested b;
     scope := scope b;
     trace := trace b |}.

Definition record_error (exc : exn) (b : bridge) : bridge :=
  {| reader := reader b;
     reader_must_cancel := reader_must_cancel b;
     writer := writer b;
     writer_must_cancel := writer_must_cancel b;
     force := force b;
     force_must_cancel := force_must_cancel b;
     aborting := aborting b;
     errors := errors b ++ [exc];
     parent_cancel_requested := parent_cancel_requested b;
     scope := scope b;
     trace := trace b |}.

Definition cancel_parent (b : bridge) : bridge :=
  {| reader := reader b;
     reader_must_cancel := reader_must_cancel b;
     writer := writer b;
     writer_must_cancel := writer_must_cancel b;
     force := force b;
     force_must_cancel := force_must_cancel b;
     aborting := aborting b;
     errors := errors b;
     parent_cancel_requested := true;
     scope := scope b;
     trace := trace b |}.

(** [TaskGroup._on_task_done] for a task that ended with [o]: a task that
    returned or was cancelled changes nothing; the exception of a failed
    task is recorded and, unless the group is shutting down already, the
    other tasks and the parent task are cancelled. *)
Definition on_task_done (o : result unit) (b : bridge) : bridge :=
  match o with
  | Returns _ => b
  | Raises CancelledError => b
  | Raises exc =>
      let b' := record_error exc b in
      if aborting b' || parent_cancel_requested b' then b'
      else cancel_parent (abort b')
  end.

(** [Task.__step]: a task whose cancellation was requested is resumed with
    [CancelledError] whatever it was waiting for. *)
Definition delivered {V : Type} (must_cancel : bool) (i : resumption V)
  : resumption V :=
  if must_cancel then Throw CancelledError else i.

Definition set_reader (pc : reader_pc) (acts : list action) (b : bridge) : bridge :=
  {| reader := pc;
     reader_must_cancel := false;
     writer := writer b;
     writer_must_cancel := writer_must_cancel b;
     force := force b;
     force_must_cancel := force_must_cancel b;
     aborting := aborting b;
     errors := errors b;
     parent_cancel_requested := parent_cancel_requested b;
     scope := scope b;
     trace := trace b ++ acts |}.

Definition set_writer (pc : writer_pc) (acts : list action) (b : bridge) : bridge :=
  {| reader := reader b;
     reader_must_cancel := reader_must_cancel b;
     writer := pc;
     writer_must_cancel := false;
     force := force b;
     force_must_cancel := force_must_cancel b;
     aborting := aborting b;
     errors := errors b;
     parent_cancel_requested := parent_cancel_requested b;
     scope := scope b;
     trace := trace b ++ acts |}.

Definition set_force (pc : force_pc) (b : bridge) : bridge :=
  {| reader := reader b;
     reader_must_cancel := reader_must_cancel b;
     writer := writer b;
     writer_must_cancel := writer_must_cancel b;
     force := Some pc;
     force_must_cancel := false;
     aborting := aborting b;
     errors := errors b;
     parent_cancel_requested := parent_cancel_requested b;
     scope := scope b;
     trace := trace b |}.

Definition set_scope (p : phase) (b : bridge) : bridge :=
  {| reader := reader b;
     reader_must_cancel := reader_must_cancel b;
     writer := writer b;
     writer_must_cancel := writer_must_cancel b;
     force := force b;
     force_must_cancel := force_must_cancel b;
     aborting := aborting b;
     errors := errors b;
     parent_cancel_requested := parent_cancel_requested b;
     scope := p;
     trace := trace b |}.

(** The part of a raised exception that [except* TerminateTaskGroup] does
    not handle: [split] removes the matching leaves of a group and drops
    the groups left empty. *)
Fixpoint unhandled (exc : exn) : option exn :=
  match exc with
  | TerminateTaskGroup => None
  | ExceptionGroup msg excs =>
      match keep unhandled excs with
      | [] => None
      | rest => Some (ExceptionGroup msg rest)
      end
  | _ => Some exc
  end.

(** What [TaskGroup.__aexit__] raises once every task is done: the recorded
    errors, with the exception of the body unless that is a cancellation,
    as one group; a cancellation of the body when there is no error. *)
Definition group_raises (body_exc : option exn) (errs : list exn) : option exn :=
  let errs' :=
    errs ++ match body_exc with
            | None | Some CancelledError => []
            | Some exc => [exc]
            end in
  match errs' with
  | [] => match body_exc with
          | Some CancelledError => Some CancelledError
          | _ => None
          end
  | _ => Some (ExceptionGroup "unhandled errors in a TaskGroup" errs')
  end.

(** [try: async with asyncio.TaskGroup() ... except* TerminateTaskGroup: pass] *)
Definition leave (body_exc : option exn) (errs : list exn) : result unit :=
  match group_raises body_exc errs with
  | None => Returns tt
  | Some exc =>
      match unhandled exc with
      | None => Returns tt
      | Some rest => Raises rest
      end
  end.

(** The payloads handed to [publish_async] and the items handed to the
    inbound stream, among the calls [t]. *)
Definition published (t : list action) : list bytes :=
  keep (fun a => match a with Publish payload => Some payload | _ => None end) t.

Definition inbound (t : list action) : list item :=
  keep (fun a => match a with Forward x => Some x | _ => None end) t.

(** The group is shutting down and every task that is not over has its
    cancellation pending. *)
Definition shutting_down (b : bridge) : bool :=
  aborting b
  && (reader_done (reader b) || reader_must_cancel b)
  && (writer_done (writer b) || writer_must_cancel b)
  && (force_done (force b) || force_must_cancel b).

(** The bridge is left with a group of unhandled errors that holds [exc]. *)
Definition reports (exc : exn) (o : result unit) : Prop :=
  exists rest,
    o = Raises (ExceptionGroup "unhandled errors in a TaskGroup" rest)
    /\ In exc rest.

Inductive bridge_event : Type :=
| ReaderResumes (i : resumption reader_value)
| WriterResumes (i : resumption writer_value)
| ForceRuns                   (* the task of [force_termination] is run *)
| BodyReturns                 (* the consumer's [async with] body ends *)
| BodyRaises (exc : exn)      (* ... or raises, [CancelledError] included *)
| TasksJoined.                (* every task is done: [__aexit__] returns or raises *)

(** One step of the event loop.  [BodyReturns] runs
    [tg.create_task(force_termination())]; it is modelled for a group that
    is not shutting down: otherwise the parent task has a cancellation
    pending and the body ends by [BodyRaises]. *)
Definition bridge_step (b : bridge) (ev : bridge_event) : option bridge :=
  match ev with
  | ReaderResumes i =>
      match reader_step (reader b) (delivered (reader_must_cancel b) i) with
      | Some (RExit o, acts) => Some (on_task_done o (set_reader (RExit o) acts b))
      | Some (pc, acts) => Some (set_reader pc acts b)
      | None => None
      end
  | WriterResumes i =>
      match writer_step (writer b) (delivered (writer_must_cancel b) i) with
      | Some (WExit o, acts) => Some (on_task_done o (set_writer (WExit o) acts b))
      | Some (pc, acts) => Some (set_writer pc acts b)
      | None => None
      end
  | ForceRuns =>
      match force b with
      | Some pc =>
          match force_termination pc (delivered (force_must_cancel b) (Value tt)) with
          | Some (FExit o, _) => Some (on_task_done o (set_force (FExit o) b))
          | _ => None
          end
      | None => None
      end
  | BodyReturns =>
      match scope b with
      | InBody =>
          if aborting b then None
          else Some (set_scope (Joining None) (set_force FCreated b))
      | _ => None
      end
  | BodyRaises exc =>
      match scope b with
      | InBody =>
          Some (set_scope (Joining (Some exc)) (if aborting b then b else abort b))
      | _ => None
      end
  | TasksJoined =>
      match scope b with
      | Joining body_exc =>
          if reader_done (reader b) && writer_done (writer b) && force_done (force b)
          then Some (set_scope (Left (leave body_exc (errors b))) b)
          else None
      | _ => None
      end
  end.

Fixpoint bridge_run (b : bridge) (evs : list bridge_event) : option bridge :=
  match evs with
  | [] => Some b
  | ev :: evs' =>
      match bridge_step b ev with
      | Some b' => bridge_run b' evs'
      | None => None
      end
  end.

(** One resumption for each pump that is not over. *)
Definition resume_pumps (b : bridge) (i : resumption reader_value)
           (j : resumption writer_value) : list bridge_event :=
  (if reader_done (reader b) then [] else [ReaderResumes i])
    ++ (if writer_done (writer b) then [] else [WriterResumes j]).

(** The events of one message that goes out, and of one that comes in. *)
Definition publish_round (m : message) : list bridge_event :=
  map WriterResumes (sent_and_acked m).

Definition receive_round (payload : bytes) : list bridge_event :=
  [ReaderResumes (Value (Received payload)); ReaderResumes (Value Delivered)].

(** The bridge once both pump tasks have taken their first step and the
    consumer's body is running: [slim_reader] is parked in
    [get_message_async] and [slim_writer] on the outbound stream.  A body that
    raises before its first [await] has the two tasks cancelled before they
    start; such a run is outside this model. *)
Definition create_mcp_streams : bridge :=
  {| reader := RReceive;
     reader_must_cancel := false;
     writer := WNext;
     writer_must_cancel := false;
     force := None;
     force_must_cancel := false;
     aborting := false;
     errors := [];
     parent_cancel_requested := false;
     scope := InBody;
     trace := [] |}.

End Pumps.

Arguments RReceive {message}.
Arguments RExit {message} o.
Arguments RSendExc {message} exc.
Arguments Exhausted {message}.
Arguments Completion {message}.
Arguments Done {message}.
Arguments CloseInbound {message}.
Arguments CloseOutbound {message}.
Arguments Publish {message} payload.
Arguments Acked {message}.
Arguments LogError {message} text.
Arguments ReaderResumes {message} i.
Arguments ForceRuns {message}.
Arguments BodyReturns {message}.
Arguments BodyRaises {message} exc.
Arguments TasksJoined {message}.
Arguments create_mcp_streams {message}.
Arguments reader_finally {message} o.
Arguments sent_and_acked {message} m.
Arguments publish_round {message} m.
Arguments receive_round {message} payload.
Arguments reader_except {message} closed_marker exc.

(** A transport session, known by its identifier. *)
Record session : Type := { session_id : nat }.

(** ** [mcp_client.py] *)

Module mcp_client.

Definition closed_marker : string := "session channel closed".

Definition slim_reader {message : Type} (model_validate_json : bytes -> result message) :=
  slim_reader model_validate_json closed_marker.

Definition bridge_step {message : Type}
           (model_validate_json : bytes -> result message)
           (model_dump_json : message -> result bytes) :=
  bridge_step model_validate_json model_dump_json closed_marker.

Definition bridge_run {message : Type}
           (model_validate_json : bytes -> result message)
           (model_dump_json : message -> result bytes) :=
  bridge_run model_validate_json model_dump_json closed_marker.

(** *** [create_slim_session] *)

Inductive session_pc : Type :=
| SCreate                 (* [await slim_app.create_session_async(...)] *)
| SEstablish (s : session)
    (* [await session_with_completion.completion.wait_async()] *)
| SYield (s : session)    (* [yield session]: the body of the [async with] runs *)
| SDelete (s : session) (body_exc : option exn)
    (* [await slim_app.delete_session_async(session)] *)
| SDeleteWait (s : session) (body_exc : option exn)
    (* [await completion.wait_async()] *)
| SExit (o : result unit).

Inductive session_value : Type :=
| Created (s : session)   (* [create_session_async] returns the session with its completion *)
| Established             (* the completion of the creation fires *)
| BodyEnds                (* the body of the [async with] ends normally *)
| DeleteCompletion        (* [delete_session_async] returns a completion *)
| Deleted.                (* the completion of the deletion fires *)

Inductive session_action : Type :=
| AwaitedEstablished (s : session)
| Yield (s : session)
| DeleteSession (s : session)   (* [slim_app.delete_session_async(s)] is called *)
| AwaitedDeleted (s : session).

(** The end of the [finally] clause: the exception of the body, if any,
    goes on to the caller. *)
Definition session_exit (body_exc : option exn) : result unit :=
  match body_exc with
  | None => Returns tt
  | Some exc => Raises exc
  end.

(** At [SYield] a [Throw] is the exception the body raised, thrown into the
    generator by [__aexit__]. *)
Definition session_step (pc : session_pc) (i : resumption session_value)
  : option (session_pc * list session_action) :=
  match pc, i with
  | SCreate, Value (Created s) => Some (SEstablish s, [])
  | SCreate, Throw exc => Some (SExit (Raises exc), [])
  | SEstablish s, Value Established => Some (SYield s, [AwaitedEstablished s; Yield s])
  | SEstablish _, Throw exc => Some (SExit (Raises exc), [])
  | SYield s, Value BodyEnds => Some (SDelete s None, [DeleteSession s])
  | SYield s, Throw exc => Some (SDelete s (Some exc), [DeleteSession s])
  | SDelete s body_exc, Value DeleteCompletion => Some (SDeleteWait s body_exc, [])
  | SDelete _ _, Throw exc => Some (SExit (Raises exc), [])
  | SDeleteWait s body_exc, Value Deleted =>
      Some (SExit (session_exit body_exc), [AwaitedDeleted s])
  | SDeleteWait _ _, Throw exc => Some (SExit (Raises exc), [])
  | _, _ => None
  end.

Definition create_slim_session := run session_step SCreate.

End mcp_client.

(** ** [mcp_server.py] *)

Module mcp_server.

Definition closed_marker : string := "session closed".

Definition slim_reader {message : Type} (model_validate_json : bytes -> result message) :=
  slim_reader model_validate_json closed_marker.

Definition bridge_step {message : Type}
           (model_validate_json : bytes -> result message)
           (model_dump_json : message -> result bytes) :=
  bridge_step model_validate_json model_dump_json closed_marker.

Definition bridge_run {message : Type}
           (model_validate_json : bytes -> result message)
           (model_dump_json : message -> result bytes) :=
  bridge_run model_validate_json model_dump_json closed_marker.

(** *** [run_mcp_server] *)

Inductive server_pc : Type :=
| Listening               (* [await slim_app.listen_for_session_async(...)] *)
| Stopped (exc : exn).    (* [run_mcp_server] was left with [exc] *)

(** The accept loop, the local variable [session] that the handlers close
    over, the tasks made by [asyncio.create_task(handle_session())] ([None]
    while a task runs, its result afterwards) and the [logger.error] texts. *)
Record server : Type := {
  loop : server_pc;
  session_var : option session;
  tasks : list (option (result unit));
  log : list string
}.

Inductive server_event : Type :=
| Accept (i : resumption session)
    (* [listen_for_session_async] returns a session or raises *)
| HandlerBody (k : nat) (o : result unit).
    (* in task [k], the [async with create_mcp_streams(session)] block around
       [mcp_app.run] ends with [o] *)

Definition session_text (v : option session) : string :=
  match v with
  | Some s => decimal (session_id s)
  | None => EmptyString
  end.

(** The [try]/[except Exception as e] of [handle_session], the block having
    ended with [o]. *)
Definition handle_session (v : option session) (o : result unit)
  : result unit * list string :=
  match o with
  | Returns _ => (Returns tt, [])
  | Raises e =>
      if is_Exception e then
        (Returns tt,
         [("Error handling session " ++ session_text v ++ ": " ++ str e)%string])
      else (Raises e, [])
  end.

Fixpoint set_task (k : nat) (o : result unit) (ts : list (option (result unit)))
  : list (option (result unit)) :=
  match k, ts with
  | _, [] => []
  | O, _ :: ts' => Some o :: ts'
  | S k', t :: ts' => t :: set_task k' o ts'
  end.

Definition server_step (st : server) (ev : server_event) : option server :=
  match ev with
  | Accept i =>
      match loop st, i with
      | Listening, Value s =>
          Some {| loop := Listening;
                  session_var := Some s;
                  tasks := tasks st ++ [None];
                  log := log st |}
      | Listening, Throw e =>
          if is_Exception e then
            Some {| loop := Listening;
                    session_var := session_var st;
                    tasks := tasks st;
                    log := log st ++ [("Error accepting session: " ++ str e)%string] |}
          else
            Some {| loop := Stopped e;
                    session_var := session_var st;
                    tasks := tasks st;
                    log := log st |}
      | Stopped _, _ => None
      end
  | HandlerBody k o =>
      match nth_error (tasks st) k with
      | Some None =>
          let (o', texts) := handle_session (session_var st) o in
          Some {| loop := loop st;
                  session_var := session_var st;
                  tasks := set_task k o' (tasks st);
                  log := log st ++ texts |}
      | _ => None
      end
  end.

Fixpoint server_run (st : server) (evs : list server_event) : option server :=
  match evs with
  | [] => Some st
  | ev :: evs' =>
      match server_step st ev with
      | Some st' => server_run st' evs'
      | None => None
      end
  end.

Definition run_mcp_server : server :=
  {| loop := Listening; session_var := None; tasks := []; log := [] |}.

End mcp_server.

(** ** [helpers.py] *)

Module helpers.

Section Service.

(** [slim_bindings]: names, client configurations, apps and the global
    service with the three methods [create_local_app] calls. *)
Variables name client_config app : Type.

Record service : Type := {
  connect_async : client_config -> result nat;
  create_app_with_secret : name -> string -> result app;
  subscribe_async : app -> name -> nat -> result unit
}.

(** The outcome of [slim_bindings.initialize_with_configs] followed by
    [slim_bindings.get_global_service]. *)
Variable get_global_service : result service.

Definition setup_service (enable_opentelemetry : bool) : result service :=
  get_global_service.

Definition bind {A B : Type} (r : result A) (k : A -> result B) : result B :=
  match r with
  | Returns a => k a
  | Raises exc => Raises exc
  end.

Notation "x <- r ;; k" := (bind r (fun x => k))
  (at level 61, r at next level, right associativity).

(** [try: connection_id = await service.connect_async(cfg)] with its
    [except Exception as e] clause; [connection_id] is [None] before. *)
Definition connect (svc : service) (cfg : client_config) : result (option nat) :=
  match connect_async svc cfg with
  | Returns connection_id => Returns (Some connection_id)
  | Raises e =>
      if is_Exception e then
        if negb (contains "client already connected" (str e)) then Raises e
        else Returns None
      else Raises e
  end.

Definition create_local_app (local_name : name)
           (slim_client_config : option client_config)
           (enable_opentelemetry : bool) (shared_secret : string)
  : result (app * option nat) :=
  svc <- setup_service enable_opentelemetry ;;
  connection_id <- match slim_client_config with
                   | Some cfg => connect svc cfg
                   | None => Returns None
                   end ;;
  local_app <- create_app_with_secret svc local_name shared_secret ;;
  _ <- match connection_id with
       | Some id => subscribe_async svc local_app local_name id
       | None => Returns tt
       end ;;
  Returns (local_app, connection_id).

End Service.

End helpers.


(** ** What the runs of the reader are measured against *)

Section ReaderMeasures.

Variable message : Type.
Variable model_validate_json : bytes -> result message.


(** The messages among the items handed to the inbound stream. *)
Definition messages_forwarded (t : list (action message)) : list message :=
  keep (fun a => match a with Forward (inl m) => Some m | _ => None end) t.

(** The messages of the payloads received that deserialize. *)
Definition messages_received (inputs : list (resumption reader_value)) : list message :=
  keep (fun i => match i with
                 | Value (Received payload) =>
                     match model_validate_json payload with
                     | Returns m => Some m
                     | Raises _ => None
                     end
                 | _ => None
                 end) inputs.

(** The message that the reader holds and has not handed over yet. *)
Definition pending_message (pc : reader_pc message) : list message :=
  match pc with
  | RSendMessage m => [m]
  | _ => []
  end.

End ReaderMeasures.


(** ** What leaves the bridge *)

(** [exc] is [TerminateTaskGroup] or a group that holds one at some depth. *)
Fixpoint holds_terminate (exc : exn) : bool :=
  match exc with
  | TerminateTaskGroup => true
  | ExceptionGroup _ excs => existsb holds_terminate excs
  | _ => false
  end.


(** ** [create_client_streams]

    [create_slim_session] around [create_mcp_streams]: the body of the outer
    [async with] is the inner one, so the session generator is resumed when
    the bridge is left, with the exception the bridge raises if any. *)

Section ClientStreams.

Variable message : Type.
Variable model_validate_json : bytes -> result message.
Variable model_dump_json : message -> result bytes.

Record client_streams : Type := {
  cs_session : mcp_client.session_pc;
  cs_calls : list mcp_client.session_action;
  cs_bridge : option (bridge message)   (* [None]: not opened *)
}.

Inductive client_event : Type :=
| TransportResumes (i : resumption mcp_client.session_value)
    (* a call of [create_slim_session] on the transport completes *)
| BridgeEvent (ev : bridge_event message).
    (* an event of the bridge; the body of [create_mcp_streams] is the body
       of [create_client_streams] *)

(** How the end of the inner [async with] resumes [create_slim_session]. *)
Definition body_outcome (o : result unit) : resumption mcp_client.session_value :=
  match o with
  | Returns _ => Value mcp_client.BodyEnds
  | Raises exc => Throw exc
  end.

(** A step of [create_slim_session]; when it yields the session,
    [create_mcp_streams(session)] is entered. *)
Definition resume_session (c : client_streams)
           (i : resumption mcp_client.session_value) : option client_streams :=
  match mcp_client.session_step (cs_session c) i with
  | Some (pc, acts) =>
      Some {| cs_session := pc;
              cs_calls := cs_calls c ++ acts;
              cs_bridge := match pc with
                           | mcp_client.SYield _ => Some create_mcp_streams
                           | _ => cs_bridge c
                           end |}
  | None => None
  end.

Definition client_step (c : client_streams) (ev : client_event)
  : option client_streams :=
  match ev, cs_session c with
  | TransportResumes _, mcp_client.SYield _ => None
  | TransportResumes i, _ => resume_session c i
  | BridgeEvent ev, mcp_client.SYield _ =>
      match cs_bridge c with
      | Some b =>
          match mcp_client.bridge_step model_validate_json model_dump_json b ev with
          | Some b' =>
              let c' := {| cs_session := cs_session c;
                           cs_calls := cs_calls c;
                           cs_bridge := Some b' |} in
              match scope b' with
              | Left o => resume_session c' (body_outcome o)
              | _ => Some c'
              end
          | None => None
          end
      | None => None
      end
  | BridgeEvent _, _ => None
  end.

Fixpoint client_run (c : client_streams) (evs : list client_event)
  : option client_streams :=
  match evs with
  | [] => Some c
  | ev :: evs' =>
      match client_step c ev with
      | Some c' => client_run c' evs'
      | None => None
      end
  end.

(** What holds of every state of [create_client_streams]: the bridge is
    opened when the session is yielded, it is a bridge opened by
    [create_mcp_streams], and the session generator is past its [yield] only
    once the bridge is left, with the outcome of the bridge. *)
Definition client_invariant (c : client_streams) : Prop :=
  match cs_session c with
  | mcp_client.SCreate | mcp_client.SEstablish _ =>
      cs_bridge c = None /\ cs_calls c = []
  | mcp_client.SYield s =>
      cs_calls c = [mcp_client.AwaitedEstablished s; mcp_client.Yield s]
      /\ exists b evs,
          cs_bridge c = Some b
          /\ mcp_client.bridge_run model_validate_json model_dump_json
               create_mcp_streams evs = Some b
          /\ forall o, scope b <> Left o
  | mcp_client.SDelete s body_exc | mcp_client.SDeleteWait s body_exc =>
      cs_calls c = [mcp_client.AwaitedEstablished s; mcp_client.Yield s;
                    mcp_client.DeleteSession s]
      /\ exists b evs,
          cs_bridge c = Some b
          /\ mcp_client.bridge_run model_validate_json model_dump_json
               create_mcp_streams evs = Some b
          /\ scope b = Left (mcp_client.session_exit body_exc)
  | mcp_client.SExit r =>
      (cs_bridge c = None /\ cs_calls c = [])
      \/ exists s b evs o,
          cs_bridge c = Some b
          /\ mcp_client.bridge_run model_validate_json model_dump_json
               create_mcp_streams evs = Some b
          /\ scope b = Left o
          /\ (cs_calls c = [mcp_client.AwaitedEstablished s; mcp_client.Yield s;
                            mcp_client.DeleteSession s]
              \/ (cs_calls c = [mcp_client.AwaitedEstablished s; mcp_client.Yield s;
                                mcp_client.DeleteSession s;
                                mcp_client.AwaitedDeleted s]
                  /\ r = o))
  end.

(** [create_client_streams] at [await slim_app.create_session_async(...)]. *)
Definition create_client_streams : client_streams :=
  {| cs_session := mcp_client.SCreate; cs_calls := []; cs_bridge := None |}.

End ClientStreams.

Arguments TransportResumes {message} i.
Arguments create_client_streams {message}.


(** ** The sessions [run_mcp_server] accepted *)

(** The sessions returned by [listen_for_session_async], in order. *)
Definition accepted (evs : list mcp_server.server_event) : list session :=
  keep (fun ev => match ev with
                  | mcp_server.Accept (Value s) => Some s
                  | _ => None
                  end) evs.


(** * The examples *)

(** ** [examples/mcp_server_time/server.py]: the time tools *)

Module mcp_server_time.

(** [types.TextContent]. *)
Record TextContent : Type := { type : string; text : string }.

Section TimeServer.

(** The values of the tool arguments, with Python's truth test on them. *)
Variable value : Type.
Variable truthy : value -> bool.

(** [zoneinfo.ZoneInfo(key)]. *)
Variable zone : Type.
Variable ZoneInfo : value -> result zone.

(** [McpError(types.ErrorData(code=types.INTERNAL_ERROR, message=message))]. *)
Variable McpError : string -> exn.

(** [datetime.strptime(time_str, '%H:%M').time()], and
    [isinstance(exc, ValueError)]. *)
Variable parsed_time : Type.
Variable strptime : value -> result parsed_time.
Variable is_ValueError : exn -> bool.

(** The models [TimeResult] and [TimeConversionResult], what the two methods
    of [TimeServer] compute once their arguments are checked, and
    [json.dumps(result.model_dump(), indent=2)]. *)
Variables TimeResult TimeConversionResult : Type.
Variable current_time : value -> zone -> result TimeResult.
Variable converted_time :
  value -> value -> zone -> zone -> parsed_time -> result TimeConversionResult.
Variable dumps : TimeResult + TimeConversionResult -> result string.

Definition bind {A B : Type} (r : result A) (k : A -> result B) : result B :=
  match r with
  | Returns a => k a
  | Raises exc => Raises exc
  end.

Notation "x <- r ;; k" := (bind r (fun x => k))
  (at level 61, r at next level, right associativity).

Definition get_zoneinfo (timezone_name : value) : result zone :=
  match ZoneInfo timezone_name with
  | Returns z => Returns z
  | Raises e =>
      if is_Exception e then Raises (McpError ("Invalid timezone: " ++ str e))
      else Raises e
  end.

(** [TimeServer.get_current_time]. *)
Definition get_current_time (timezone_name : value) : result TimeResult :=
  timezone <- get_zoneinfo timezone_name ;;
  current_time timezone_name timezone.

(** [TimeServer.convert_time]. *)
Definition convert_time (source_tz time_str target_tz : value)
  : result TimeConversionResult :=
  source_timezone <- get_zoneinfo source_tz ;;
  target_timezone <- get_zoneinfo target_tz ;;
  parsed <- match strptime time_str with
            | Returns t => Returns t
            | Raises e =>
                if is_ValueError e
                then Raises (Error "Invalid time format. Expected HH:MM [24-hour format]")
                else Raises e
            end ;;
  converted_time source_tz target_tz source_timezone target_timezone parsed.

(** The [try] block of [call_tool]; [arguments] is a [dict], read by
    [arguments.get(k)] and [k in arguments] only. *)
Definition call_tool_body (name : string) (arguments : string -> option value)
  : result (list TextContent) :=
  result <-
    (if String.eqb name "get_current_time" then
       match arguments "timezone" with
       | Some timezone =>
           if negb (truthy timezone)
           then Raises (Error "Missing required argument: timezone")
           else r <- get_current_time timezone ;; Returns (inl r)
       | None => Raises (Error "Missing required argument: timezone")
       end
     else if String.eqb name "convert_time" then
       match arguments "source_timezone", arguments "time",
             arguments "target_timezone" with
       | Some source_timezone, Some time, Some target_timezone =>
           r <- convert_time source_timezone time target_timezone ;;
           Returns (inr r)
       | _, _, _ => Raises (Error "Missing required arguments")
       end
     else Raises (Error ("Unknown tool: " ++ name))) ;;
  json <- dumps result ;;
  Returns [{| type := "text"; text := json |}].

(** [call_tool], with its [except Exception as e] clause. *)
Definition call_tool (name : string) (arguments : string -> option value)
  : result (list TextContent) :=
  match call_tool_body name arguments with
  | Returns content => Returns content
  | Raises e =>
      if is_Exception e
      then Raises (Error ("Error processing mcp-server-time query: " ++ str e))
      else Raises e
  end.

End TimeServer.

End mcp_server_time.


(** ** [examples/click_types.py]: [ClientConfigType.convert] *)

Module click_types.

(** The exceptions of [convert]: [click.BadParameter], raised by
    [self.fail]; the built-in [KeyError], [TypeError] and [AttributeError];
    and what a call into [slim_bindings] raised. *)
Inductive error : Type :=
| BadParameter (message : string)
| KeyError (key : string)
| TypeError
| AttributeError
| Raised (exc : exn).

Inductive outcome (A : Type) : Type :=
| Ok (a : A)
| Fail (e : error).
Arguments Fail {A} e.

Definition bind {A B : Type} (r : outcome A) (k : A -> outcome B) : outcome B :=
  match r with
  | Ok a => k a
  | Fail e => Fail e
  end.

Definition lift {A : Type} (r : result A) : outcome A :=
  match r with
  | Returns a => Ok a
  | Raises exc => Fail (Raised exc)
  end.

(** The outcome is not a usage error of the command line. *)
Definition no_usage_error {A : Type} (r : outcome A) : Prop :=
  forall m, r <> Fail (BadParameter m).

Section Convert.

(** [int] and [float] values, with Python's truth test on them. *)
Variable number : Type.
Variable nonzero : number -> bool.

(** What [json.loads] returns; a [dict] is the list of its items, the item
    found first under a key being the one of that key. *)
#[warnings="-register-all"]
Inductive json : Type :=
| JNull
| JBool (b : bool)
| JNumber (n : number)
| JString (s : string)
| JList (l : list json)
| JDict (items : list (string * json)).

(** [json.loads(text)], [None] standing for [json.JSONDecodeError]. *)
Variable loads : string -> option json.

(** [slim_bindings]: [new_insecure_client_config(endpoint)],
    [TlsClientConfig(insecure=..., insecure_skip_verify=..., ...)] with its
    other arguments as in the source, and [CompressionType[name]]. *)
Variables ClientConfig tls_client_config compression_type : Type.
Variable new_insecure_client_config : json -> result ClientConfig.
Variable TlsClientConfig : json -> json -> result tls_client_config.
Variable CompressionType : json -> result compression_type.

Notation "x <- r ;; k" := (bind r (fun x => k))
  (at level 61, r at next level, right associativity).

Fixpoint lookup (k : string) (items : list (string * json)) : option json :=
  match items with
  | [] => None
  | (k', v) :: rest => if String.eqb k k' then Some v else lookup k rest
  end.

(** [bool(x)]. *)
Definition truthy (x : json) : bool :=
  match x with
  | JNull => false
  | JBool b => b
  | JNumber n => nonzero n
  | JString EmptyString => false
  | JString (String _ _) => true
  | JList [] => false
  | JList (_ :: _) => true
  | JDict [] => false
  | JDict (_ :: _) => true
  end.

(** [k in x], for a [str] [k]. *)
Definition py_in (k : string) (x : json) : outcome bool :=
  match x with
  | JDict items => Ok (match lookup k items with Some _ => true | None => false end)
  | JList l =>
      Ok (existsb (fun v => match v with
                            | JString s => String.eqb k s
                            | _ => false
                            end) l)
  | JString s => Ok (contains k s)
  | JNull | JBool _ | JNumber _ => Fail TypeError
  end.

(** [x[k]], for a [str] [k]. *)
Definition getitem (x : json) (k : string) : outcome json :=
  match x with
  | JDict items =>
      match lookup k items with
      | Some v => Ok v
      | None => Fail (KeyError k)
      end
  | _ => Fail TypeError
  end.

(** [x.get(k, False)]. *)
Definition get (x : json) (k : string) : outcome json :=
  match x with
  | JDict items =>
      Ok (match lookup k items with Some v => v | None => JBool false end)
  | _ => Fail AttributeError
  end.

(** [len(x)]; the length of a [dict] is the number of its keys. *)
Definition len (x : json) : outcome nat :=
  match x with
  | JDict items => Ok (List.length (nodup string_dec (map fst items)))
  | JList l => Ok (List.length l)
  | JString s => Ok (String.length s)
  | JNull | JBool _ | JNumber _ => Fail TypeError
  end.

(** The [value] click hands over: the default [dict] or a text. *)
Inductive param : Type :=
| Dict (items : list (string * json))
| Text (s : string).

(** The configuration returned: the object made by
    [new_insecure_client_config] and the attributes assigned to it. *)
Record config : Type := {
  base : ClientConfig;
  tls : option tls_client_config;
  origin : option json;
  server_name : option json;
  compression : option compression_type;
  rate_limit : option json
}.

(** [json_data], as the first statement leaves it. *)
Definition json_data_of (value : param) : outcome json :=
  match value with
  | Dict items => Ok (JDict items)
  | Text s =>
      match loads s with
      | Some j => Ok j
      | None => Fail (BadParameter (s ++ " is not valid JSON"))
      end
  end.

(** The condition of the first [if], a chain of [and]. *)
Definition only_insecure_tls (json_data : json) : outcome bool :=
  has_endpoint <- py_in "endpoint" json_data ;;
  if negb has_endpoint then Ok false else
  has_tls <- py_in "tls" json_data ;;
  if negb has_tls then Ok false else
  tls_data <- getitem json_data "tls" ;;
  insecure <- get tls_data "insecure" ;;
  if negb (truthy insecure) then Ok false else
  n <- len json_data ;;
  if negb (Nat.eqb n 2) then Ok false else
  tls_data <- getitem json_data "tls" ;;
  m <- len tls_data ;;
  Ok (Nat.eqb m 1).

(** [x[k]] under [if k in x], [None] when the key is not there. *)
Definition optional (json_data : json) (k : string) : outcome (option json) :=
  present <- py_in k json_data ;;
  if present then v <- getitem json_data k ;; Ok (Some v) else Ok None.

Definition convert (value : param) : outcome config :=
  json_data <- json_data_of value ;;
  shortcut <- only_insecure_tls json_data ;;
  if shortcut then
    endpoint <- getitem json_data "endpoint" ;;
    config <- lift (new_insecure_client_config endpoint) ;;
    Ok {| base := config; tls := None; origin := None; server_name := None;
          compression := None; rate_limit := None |}
  else
    endpoint <- getitem json_data "endpoint" ;;
    config <- lift (new_insecure_client_config endpoint) ;;
    tls_data <- optional json_data "tls" ;;
    tls <- match tls_data with
           | Some tls_data =>
               insecure <- get tls_data "insecure" ;;
               insecure_skip_verify <- get tls_data "insecure_skip_verify" ;;
               t <- lift (TlsClientConfig insecure insecure_skip_verify) ;;
               Ok (Some t)
           | None => Ok None
           end ;;
    origin <- optional json_data "origin" ;;
    server_name <- optional json_data "server_name" ;;
    name <- optional json_data "compression" ;;
    compression <- match name with
                   | Some name => c <- lift (CompressionType name) ;; Ok (Some c)
                   | None => Ok None
                   end ;;
    rate_limit <- optional json_data "rate_limit" ;;
    Ok {| base := config; tls := tls; origin := origin;
          server_name := server_name; compression := compression;
          rate_limit := rate_limit |}.

End Convert.

Arguments JNull {number}.
Arguments JBool {number} b.
Arguments JString {number} s.
Arguments Text {number} s.

End click_types.


(** ** Concrete instances of the examples *)

Module TimeSample.

Definition value : Type := string.

Definition truthy (v : value) : bool :=
  match v with
  | EmptyString => false
  | String _ _ => true
  end.

Definition ZoneInfo (key : value) : result string :=
  if String.eqb key "Europe/Rome" then Returns key
  else Raises (Error ("'No time zone found with key " ++ key ++ "'")).

Definition McpError (message : string) : exn := Error message.

Definition strptime (time_str : value) : result string :=
  if String.eqb time_str "09:30" then Returns time_str
  else Raises (Error "time data does not match format '%H:%M'").

Definition is_ValueError (exc : exn) : bool :=
  match exc with
  | Error _ => true
  | _ => false
  end.

Definition current_time (timezone_name : value) (timezone : string) : result string :=
  Returns ("2025-01-01T09:30:00 " ++ timezone_name)%string.

Definition converted_time (source_tz target_tz : value)
           (source_timezone target_timezone parsed : string) : result string :=
  Returns (parsed ++ " " ++ source_tz ++ " -> " ++ target_tz)%string.

Definition dumps (r : string + string) : result string :=
  match r with
  | inl current => Returns current
  | inr converted => Returns converted
  end.

Definition call_tool :=
  mcp_server_time.call_tool truthy ZoneInfo McpError strptime is_ValueError
                            current_time converted_time dumps.

Definition convert_time :=
  mcp_server_time.convert_time ZoneInfo McpError strptime is_ValueError
                               converted_time.

(** The arguments of a call that names an unknown time zone. *)
Definition on_mars (k : string) : option value :=
  if String.eqb k "timezone" then Some "Mars/Olympus" else None.

End TimeSample.

Module ConfigSample.

Definition number : Type := nat.

Definition nonzero (n : number) : bool := negb (Nat.eqb n 0).

Definition json : Type := click_types.json number.

Definition loads (s : string) : option json :=
  if String.eqb s "[1]" then Some (click_types.JList [click_types.JNumber 1])
  else if String.eqb s "{}" then Some (click_types.JDict [])
  else None.

Definition new_insecure_client_config (endpoint : json) : result string :=
  match endpoint with
  | click_types.JString s => Returns s
  | _ => Raises (Error "endpoint is not a str")
  end.

Definition TlsClientConfig (insecure insecure_skip_verify : json)
  : result (bool * bool) :=
  Returns (click_types.truthy nonzero insecure,
           click_types.truthy nonzero insecure_skip_verify).

Definition CompressionType (name : json) : result string :=
  match name with
  | click_types.JString s =>
      if String.eqb s "Gzip" then Returns s else Raises (Error s)
  | _ => Raises (Error "not a name")
  end.

Definition convert :=
  click_types.convert nonzero loads new_insecure_client_config TlsClientConfig
                      CompressionType.

(** A configuration with verified TLS and an origin. *)
Definition verified : list (string * json) :=
  [("endpoint", click_types.JString "https://slim.example:46357");
   ("tls", click_types.JDict [("insecure", click_types.JBool false)]);
   ("origin", click_types.JString "agent")].

Definition verified_config
  : click_types.config number string (bool * bool) string :=
  {| click_types.base := "https://slim.example:46357";
     click_types.tls := Some (false, false);
     click_types.origin := Some (click_types.JString "agent");
     click_types.server_name := None;
     click_types.compression := None;
     click_types.rate_limit := None |}.

End ConfigSample.

(** ** A concrete instance

    Messages are their own JSON text; a payload is well-formed when it opens
    an object. *)

Module Sample.

Definition message : Type := string.

Definition model_validate_json (payload : bytes) : result message :=
  if startswith "{" payload then Returns payload
  else Raises (Error "Invalid JSON: expected value at line 1 column 1").

Definition model_dump_json (m : message) : result bytes := Returns m.

Definition ping : message := "{'jsonrpc':'2.0','method':'ping'}".

(** The bridge when the consumer enters its body. *)
Definition opened : bridge message := create_mcp_streams.

(** The bridge while the writer waits for [publish_async] on [ping]. *)
Definition publishing : bridge message :=
  {| reader := RReceive;
     reader_must_cancel := false;
     writer := WPublish ping;
     writer_must_cancel := false;
     force := None;
     force_must_cancel := false;
     aborting := false;
     errors := [];
     parent_cancel_requested := false;
     scope := InBody;
     trace := [Publish ping] |}.

(** A service that is connected to its endpoint already, and one whose
    endpoint cannot be reached; apps are known by their name. *)
Definition connected : helpers.service string string string :=
  {| helpers.connect_async :=
       fun _ => Raises (Error "connection error: client already connected");
     helpers.create_app_with_secret := fun local_name _ => Returns local_name;
     helpers.subscribe_async := fun _ _ _ => Returns tt |}.

Definition unreachable : helpers.service string string string :=
  {| helpers.connect_async :=
       fun _ => Raises (Error "connection error: transport error");
     helpers.create_app_with_secret := fun local_name _ => Returns local_name;
     helpers.subscribe_async := fun _ _ _ => Returns tt |}.

(** The client bridge after the events [evs]. *)
Definition bridge_after (evs : list (bridge_event message)) : bridge message :=
  match mcp_client.bridge_run model_validate_json model_dump_json opened evs with
  | Some b => b
  | None => opened
  end.

(** A send fails while the consumer is in its body; the body is cancelled
    and the reader is resumed. *)
Definition failed_send : list (bridge_event message) :=
  [WriterResumes (Value (Taken ping));
   WriterResumes (Throw (Error "publish failed"));
   BodyRaises CancelledError;
   ReaderResumes (Value (Received "{}"));
   TasksJoined].

(** The consumer leaves the scope while both pumps are parked. *)
Definition quiet_exit : list (bridge_event message) :=
  [BodyReturns; ForceRuns;
   ReaderResumes (Value (Received "{}"));
   WriterResumes (Value (Taken ping));
   TasksJoined].

(** A client opens its streams, the consumer leaves, the session is
    deleted. *)
Definition client_session : list (client_event message) :=
  [TransportResumes (Value (mcp_client.Created {| session_id := 3 |}));
   TransportResumes (Value mcp_client.Established)]
    ++ map (@BridgeEvent message) quiet_exit
    ++ [TransportResumes (Value mcp_client.DeleteCompletion);
        TransportResumes (Value mcp_client.Deleted)].

Definition client_after (evs : list (client_event message)) : client_streams message :=
  match client_run model_validate_json model_dump_json create_client_streams evs with
  | Some c => c
  | None => create_client_streams
  end.

(** The accept loop after the events [evs]. *)
Definition server_after (evs : list mcp_server.server_event) : mcp_server.server :=
  match mcp_server.server_run mcp_server.run_mcp_server evs with
  | Some st => st
  | None => mcp_server.run_mcp_server
  end.

(** Two sessions are accepted after a failed accept; both handlers run. *)
Definition two_sessions : list mcp_server.server_event :=
  [mcp_server.Accept (Throw (Error "listen timed out"));
   mcp_server.Accept (Value {| session_id := 1 |});
   mcp_server.Accept (Value {| session_id := 2 |})].

End Sample.

(** * Properties *)

(** ** Text containment *)

Lemma startswith_spec (pre text : string) :
  startswith pre text = true <-> exists post, text = (pre ++ post)%string.
Proof.
  revert text; induction pre as [|a pre IH]; intros text; simpl.
  - split; [intros _; now exists text | reflexivity].
  - destruct text as [|b text].
    + split; [discriminate | intros [post H]; discriminate].
    + rewrite andb_true_iff, Ascii.eqb_eq, IH. split.
      * intros [-> [post ->]]. now exists post.
      * intros [post H]. injection H as -> ->. split; [reflexivity | now exists post].
Qed.

Lemma contains_spec (sub text : string) :
  contains sub text = true <->
  exists pre post, text = (pre ++ sub ++ post)%string.
Proof.
  split.
  - induction text as [|b text IH]; simpl; rewrite orb_true_iff.
    + intros [H | H]; [|discriminate].
      apply startswith_spec in H as [post ->]. now exists EmptyString, post.
    + intros [H | H].
      * apply startswith_spec in H as [post ->]. now exists EmptyString, post.
      * destruct (IH H) as (pre & post & ->). now exists (String b pre), post.
  - intros (pre & post & ->). induction pre as [|a pre IH]; simpl.
    + assert (H : startswith sub (sub ++ post) = true)
        by (apply startswith_spec; now exists post).
      destruct (sub ++ post)%string; simpl in *; rewrite H; reflexivity.
    + rewrite IH. apply orb_true_r.
Qed.

Lemma contains_false_spec (sub text : string) :
  contains sub text = false <->
  ~ exists pre post, text = (pre ++ sub ++ post)%string.
Proof.
  rewrite <- contains_spec. destruct (contains sub text); split; intros H.
  - discriminate.
  - now destruct H.
  - intros H'; discriminate.
  - reflexivity.
Qed.

(** ** Runs *)

Lemma keep_app {A B : Type} (f : A -> option B) (l1 l2 : list A) :
  keep f (l1 ++ l2) = keep f l1 ++ keep f l2.
Proof.
  induction l1 as [|x l1 IH]; simpl; [reflexivity|].
  destruct (f x); simpl; now rewrite IH.
Qed.

Lemma keep_in {A B : Type} (f : A -> option B) (l : list A) (x : A) (y : B) :
  In x l -> f x = Some y -> In y (keep f l).
Proof.
  induction l as [|a l IH]; simpl; [tauto|]. intros [->|H] E.
  - rewrite E. now left.
  - destruct (f a); [right|]; auto.
Qed.

Lemma run_app {PC V A : Type} (step : PC -> resumption V -> option (PC * list A))
      (xs ys : list (resumption V)) (pc : PC) :
  run step pc (xs ++ ys) =
  match run step pc xs with
  | Some (pc', t) =>
      match run step pc' ys with
      | Some (pc'', t') => Some (pc'', t ++ t')
      | None => None
      end
  | None => None
  end.
Proof.
  revert pc; induction xs as [|x xs IH]; intros pc; simpl.
  - destruct (run step pc ys) as [[pc' t]|]; reflexivity.
  - destruct (step pc x) as [[pc1 t1]|]; [|reflexivity].
    rewrite IH. destruct (run step pc1 xs) as [[pc2 t2]|]; [|reflexivity].
    destruct (run step pc2 ys) as [[pc3 t3]|]; [|reflexivity].
    now rewrite app_assoc.
Qed.

Section PumpFacts.

Variable message : Type.
Variable model_validate_json : bytes -> result message.
Variable model_dump_json : message -> result bytes.
Variable closed_marker : string.

Local Abbreviation rstep := (reader_step model_validate_json closed_marker).
Local Abbreviation wstep := (writer_step model_dump_json).

(** A pump that is over takes no further step. *)
Lemma reader_exit_final (o : result unit) (i : resumption reader_value) :
  rstep (RExit o) i = None.
Proof. destruct i as [[]|]; reflexivity. Qed.

Lemma writer_exit_final (o : result unit) (i : resumption (writer_value message)) :
  wstep (WExit o) i = None.
Proof. destruct i as [[]|]; reflexivity. Qed.

Lemma run_reader_exit (o : result unit) (inputs : list (resumption reader_value)) :
  inputs <> [] -> run rstep (RExit o) inputs = None.
Proof.
  destruct inputs as [|i inputs]; [congruence|]. intros _. cbn [run].
  now rewrite reader_exit_final.
Qed.

Lemma run_writer_exit (o : result unit)
      (inputs : list (resumption (writer_value message))) :
  inputs <> [] -> run wstep (WExit o) inputs = None.
Proof.
  destruct inputs as [|i inputs]; [congruence|]. intros _. cbn [run].
  now rewrite writer_exit_final.
Qed.

(** The handler of the reader either parks the pump at the forwarding
    [send] or ends it through the [finally] clause. *)
Lemma reader_except_cases (exc : exn) :
  @reader_except message closed_marker exc
  = (RSendExc exc, [LogError "Error receiving message"])
  \/ exists o, @reader_except message closed_marker exc = (RExit o, [CloseInbound]).
Proof.
  unfold reader_except, reader_finally.
  destruct (is_Exception exc); [destruct (contains closed_marker (str exc))|];
    eauto.
Qed.

(** One step of the reader: it ends with [CloseInbound] as its last call, or
    it goes on without closing anything. *)
Lemma reader_step_close (pc pc' : reader_pc message) (i : resumption reader_value)
      (acts : list (action message)) :
  rstep pc i = Some (pc', acts) ->
  (exists o acts', pc' = RExit o /\ acts = acts' ++ [CloseInbound]
                   /\ ~ In CloseInbound acts')
  \/ (reader_done pc' = false /\ ~ In CloseInbound acts).
Proof.
  unfold reader_step. intros H.
  destruct pc as [|m|exc|o], i as [[payload|]|exc'];
    try discriminate; simpl in H.
  - destruct (model_validate_json payload) as [m|exc].
    + injection H as <- <-. right. split; [reflexivity|]. now intros [].
    + destruct (reader_except_cases exc) as [E|[o E]]; rewrite E in H;
        injection H as <- <-.
      * right. split; [reflexivity|]. intros [|[]]; discriminate.
      * left. exists o, []. repeat split. now intros [].
  - destruct (reader_except_cases exc') as [E|[o E]]; rewrite E in H;
      injection H as <- <-.
    + right. split; [reflexivity|]. intros [|[]]; discriminate.
    + left. exists o, []. repeat split. now intros [].
  - injection H as <- <-. right. split; [reflexivity|]. intros [|[]]; discriminate.
  - destruct (reader_except_cases exc') as [E|[o E]]; rewrite E in H;
      injection H as <- <-.
    + right. split; [reflexivity|]. intros [|[]]; discriminate.
    + left. exists o, []. repeat split. now intros [].
  - injection H as <- <-. left. exists (Returns tt), [Forward (inr exc)].
    repeat split. intros [|[]]; discriminate.
  - injection H as <- <-. left. exists (Raises exc'), []. repeat split. now intros [].
Qed.

Lemma run_reader_close (inputs : list (resumption reader_value))
      (pc : reader_pc message) (o : result unit) (t : list (action message)) :
  reader_done pc = false ->
  run rstep pc inputs = Some (RExit o, t) ->
  exists t', t = t' ++ [CloseInbound] /\ ~ In CloseInbound t'.
Proof.
  revert pc t; induction inputs as [|i inputs IH]; intros pc t Hpc H;
    cbn [run] in H.
  - injection H as -> _. discriminate.
  - destruct (rstep pc i) as [[pc1 acts]|] eqn:E; [|discriminate].
    destruct (reader_step_close _ _ E) as [(o1 & acts' & -> & -> & Hn)|[Hd Hn]].
    + destruct inputs as [|i' inputs].
      * cbn [run] in H. injection H as _ <-. exists acts'. now rewrite app_nil_r.
      * rewrite run_reader_exit in H by discriminate. discriminate.
    + destruct (run rstep pc1 inputs) as [[pc2 t2]|] eqn:E2; [|discriminate].
      injection H as -> <-. destruct (IH _ _ Hd E2) as (t' & -> & Hn').
      exists (acts ++ t'). split; [now rewrite app_assoc|].
      rewrite in_app_iff. tauto.
Qed.

(** *** The inbound pump *)

(** C8. Whenever [slim_reader] is over, whatever ended it, its last call
    was [read_stream_writer.aclose()], made once: the producer side of the
    inbound stream is closed before the pump finishes. *)
Theorem reader_exit_closes_inbound (inputs : list (resumption reader_value))
        (o : result unit) (t : list (action message)) :
  slim_reader model_validate_json closed_marker inputs = Some (RExit o, t) ->
  exists t', t = t' ++ [CloseInbound] /\ ~ In CloseInbound t'.
Proof. apply run_reader_close. reflexivity. Qed.

(** Cancellation ends the reader at whichever [await] it is parked, through
    the [finally] clause. *)
Lemma reader_cancelled (pc : reader_pc message) :
  reader_done pc = false ->
  rstep pc (Throw CancelledError) = Some (RExit (Raises CancelledError), [CloseInbound]).
Proof. destruct pc; try discriminate; reflexivity. Qed.

(** An exception classified as the end of the session ends the reader with
    [TerminateTaskGroup], nothing being sent to the inbound stream. *)
Lemma reader_closed (pc : reader_pc message) (exc : exn) :
  pc = RReceive \/ (exists m, pc = RSendMessage m) ->
  is_Exception exc = true ->
  contains closed_marker (str exc) = true ->
  rstep pc (Throw exc) = Some (RExit (Raises TerminateTaskGroup), [CloseInbound]).
Proof.
  intros [->|[m ->]] He Hc; simpl; unfold reader_except; now rewrite He, Hc.
Qed.

(** Any other exception is logged and handed to the inbound stream; the
    reader then leaves its loop. *)
Lemma reader_forwards_error (pc : reader_pc message) (exc : exn) :
  pc = RReceive \/ (exists m, pc = RSendMessage m) ->
  is_Exception exc = true ->
  contains closed_marker (str exc) = false ->
  run rstep pc [Throw exc; Value Delivered]
  = Some (RExit (Returns tt),
          [LogError "Error receiving message"; Forward (inr exc); CloseInbound]).
Proof.
  intros [->|[m ->]] He Hc; cbn [run]; simpl; unfold reader_except;
    now rewrite He, Hc.
Qed.

(** C1, as the code has it. A payload whose deserialization raises an
    exception that is not classified as the end of the session makes
    [slim_reader] log the error and forward the exception into the inbound
    stream; the reader then leaves its receive loop, closes the producer
    side of the stream and returns.  Nothing the session delivers
    afterwards is received. *)
Theorem decode_failure_forwarded_then_reader_returns
        (payload : bytes) (exc : exn) (later : list (resumption reader_value)) :
  model_validate_json payload = Raises exc ->
  is_Exception exc = true ->
  contains closed_marker (str exc) = false ->
  slim_reader model_validate_json closed_marker [Value (Received payload); Value Delivered]
  = Some (RExit (Returns tt),
          [LogError "Error receiving message"; Forward (inr exc); CloseInbound])
  /\ (later <> [] ->
      slim_reader model_validate_json closed_marker
                  ([Value (Received payload); Value Delivered] ++ later) = None).
Proof.
  intros Hd He Hc.
  assert (E : slim_reader model_validate_json closed_marker
                [Value (Received payload); Value Delivered]
              = Some (RExit (Returns tt),
                      [LogError "Error receiving message"; Forward (inr exc);
                       CloseInbound])).
  { unfold slim_reader; cbn [run]; simpl. rewrite Hd. unfold reader_except.
    now rewrite He, Hc. }
  split; [exact E|]. intros Hl. unfold slim_reader in *.
  rewrite run_app, E. now rewrite run_reader_exit.
Qed.

(** *** The outbound pump *)

(** C3. For the messages [msgs] submitted to the outbound stream, each
    publish being acknowledged, [slim_writer] calls [publish_async] once per
    message, in the order of submission, and sees the acknowledgement of
    each publish before the next one; while a publish is not acknowledged
    the pump takes no message from the stream. *)
Theorem writer_publishes_in_order (msgs : list message) (payload_of : message -> bytes) :
  (forall m, In m msgs -> model_dump_json m = Returns (payload_of m)) ->
  slim_writer model_dump_json (flat_map sent_and_acked msgs)
  = Some (WNext, flat_map (fun m => [Publish (payload_of m); Acked]) msgs)
  /\ (forall payload m, wstep (WPublish payload) (Value (Taken m)) = None)
  /\ (forall m, wstep WWait (Value (Taken m)) = None).
Proof.
  intros H. split; [|split; reflexivity].
  unfold slim_writer. induction msgs as [|m msgs IH]; [reflexivity|].
  cbn [flat_map]. rewrite run_app.
  assert (E : run wstep WNext (sent_and_acked m)
              = Some (WNext, [Publish (payload_of m); Acked])).
  { unfold sent_and_acked; cbn [run]; simpl. rewrite (H m) by now left.
    reflexivity. }
  rewrite E, IH by (intros m' Hm'; apply H; now right). reflexivity.
Qed.

(** In every run of the writer, whatever the stream and the session do, the
    payloads published are those of the messages taken, in the same order. *)
Lemma writer_publishes_what_it_takes (inputs : list (resumption (writer_value message)))
      (pc0 pc : writer_pc) (t : list (action message)) :
  run wstep pc0 inputs = Some (pc, t) ->
  published t = payloads_taken model_dump_json inputs.
Proof.
  revert pc0 pc t; induction inputs as [|i inputs IH]; intros pc0 pc t H;
    cbn [run] in H.
  - now injection H as _ <-.
  - destruct (wstep pc0 i) as [[pc1 acts]|] eqn:E; [|discriminate].
    destruct (run wstep pc1 inputs) as [[pc2 t2]|] eqn:E2; [|discriminate].
    injection H as _ <-. unfold published. rewrite keep_app.
    fold (published t2). rewrite (IH _ _ _ E2).
    unfold payloads_taken. cbn [keep]. fold (payloads_taken model_dump_json inputs).
    unfold writer_step, writer_except, writer_finally in E.
    destruct pc0, i as [[m| | |]|exc]; try discriminate;
      try (injection E as _ <-; reflexivity).
    + destruct (model_dump_json m) as [payload|exc].
      * injection E as _ <-. reflexivity.
      * destruct (is_Exception exc); injection E as _ <-; reflexivity.
    + destruct (is_Exception exc); injection E as _ <-; reflexivity.
    + destruct (is_Exception exc); injection E as _ <-; reflexivity.
Qed.

(** A failed publish, or a failed wait for its acknowledgement, ends the
    writer with the exception raised; nothing is published on the way. *)
Lemma writer_send_failure (pc : writer_pc) (exc : exn) :
  (exists payload, pc = WPublish payload) \/ pc = WWait ->
  exists acts,
    wstep pc (Throw exc) = Some (WExit (Raises exc), acts)
    /\ (forall payload, ~ In (Publish payload) acts)
    /\ In CloseOutbound acts.
Proof.
  intros [[payload ->]| ->]; simpl; unfold writer_except, writer_finally;
    destruct (is_Exception exc); eexists; (split; [reflexivity|]);
    (split; [intros p Hin; simpl in Hin;
             repeat (destruct Hin as [Hin|Hin]; try discriminate); exact Hin
            | simpl; tauto]).
Qed.

Lemma writer_cancelled (pc : writer_pc) :
  writer_done pc = false ->
  wstep pc (Throw CancelledError) = Some (WExit (Raises CancelledError), [CloseOutbound]).
Proof. destruct pc; try discriminate; reflexivity. Qed.

End PumpFacts.

Lemma reader_exit_closes_inbound_witness :
  exists t',
    [LogError "Error receiving message";
     Forward (inr (Error "connection reset")); @CloseInbound Sample.message]
    = t' ++ [CloseInbound] /\ ~ In CloseInbound t'.
Proof.
  apply (@reader_exit_closes_inbound Sample.message Sample.model_validate_json
           mcp_server.closed_marker
           [Throw (Error "connection reset"); Value Delivered] (Returns tt)).
  reflexivity.
Defined.

Lemma decode_failure_forwarded_then_reader_returns_witness :
  mcp_client.slim_reader Sample.model_validate_json
                         [Value (Received "oops"); Value Delivered]
  = Some (RExit (Returns tt),
          [LogError "Error receiving message";
           Forward (inr (Error "Invalid JSON: expected value at line 1 column 1"));
           CloseInbound])
  /\ ([Value (Received "{}"); Value Delivered] <> [] ->
      mcp_client.slim_reader Sample.model_validate_json
        ([Value (Received "oops"); Value Delivered]
           ++ [Value (Received "{}"); Value Delivered]) = None).
Proof.
  apply (@decode_failure_forwarded_then_reader_returns Sample.message
           Sample.model_validate_json mcp_client.closed_marker "oops"
           (Error "Invalid JSON: expected value at line 1 column 1")
           [Value (Received "{}"); Value Delivered]);
    reflexivity.
Defined.

(** C1, as the claim words it, fails.  The session delivers a malformed
    payload and then a well-formed one.  The decode failure is not classified
    as the end of the session, it is forwarded, and the reader is over: it
    never receives the second payload, on the client as on the server. *)
Lemma decode_failure_ends_reader :
  Sample.model_validate_json "oops"
  = Raises (Error "Invalid JSON: expected value at line 1 column 1")
  /\ Sample.model_validate_json "{}" = Returns "{}"
  /\ contains mcp_client.closed_marker
              (str (Error "Invalid JSON: expected value at line 1 column 1")) = false
  /\ contains mcp_server.closed_marker
              (str (Error "Invalid JSON: expected value at line 1 column 1")) = false
  /\ mcp_client.slim_reader Sample.model_validate_json
                            [Value (Received "oops"); Value Delivered]
     = Some (RExit (Returns tt),
             [LogError "Error receiving message";
              Forward (inr (Error "Invalid JSON: expected value at line 1 column 1"));
              CloseInbound])
  /\ mcp_server.slim_reader Sample.model_validate_json
                            [Value (Received "oops"); Value Delivered]
     = Some (RExit (Returns tt),
             [LogError "Error receiving message";
              Forward (inr (Error "Invalid JSON: expected value at line 1 column 1"));
              CloseInbound])
  /\ mcp_client.slim_reader Sample.model_validate_json
       [Value (Received "oops"); Value Delivered; Value (Received "{}"); Value Delivered]
     = None
  /\ mcp_server.slim_reader Sample.model_validate_json
       [Value (Received "oops"); Value Delivered; Value (Received "{}"); Value Delivered]
     = None.
Proof. repeat split; reflexivity. Qed.

Lemma writer_publishes_in_order_witness :
  slim_writer Sample.model_dump_json
              (flat_map sent_and_acked [Sample.ping; "{'id':1}"; "{'id':2}"])
  = Some (WNext,
          flat_map (fun m : Sample.message => [Publish m; Acked])
                   [Sample.ping; "{'id':1}"; "{'id':2}"])
  /\ (forall payload (m : Sample.message),
        writer_step Sample.model_dump_json (WPublish payload) (Value (Taken m)) = None)
  /\ (forall m : Sample.message,
        writer_step Sample.model_dump_json WWait (Value (Taken m)) = None).
Proof.
  apply (@writer_publishes_in_order Sample.message Sample.model_dump_json
           [Sample.ping; "{'id':1}"; "{'id':2}"] (fun m => m)).
  intros m _. reflexivity.
Defined.

(** The scenario of the specification: one ["ping"] sent through the bridge is
    published once and acknowledged. *)
Example ping_is_published_once :
  slim_writer Sample.model_dump_json (sent_and_acked Sample.ping)
  = Some (WNext, [Publish Sample.ping; Acked]).
Proof. reflexivity. Qed.

(** ** How the end of the session is recognised *)

(** C10. An exception caught by [slim_reader] is taken for the end of the
    session exactly when its text contains the marker of the bridge:
    ["session channel closed"] on the client, ["session closed"] on the
    server.  The reader then raises [TerminateTaskGroup]; an exception whose
    text does not contain the marker is forwarded into the inbound stream
    instead.  The two markers classify differently: the text of one does not
    contain the other. *)
Theorem closed_classification {message : Type}
        (model_validate_json : bytes -> result message) (exc : exn) :
  is_Exception exc = true ->
  ((exists pre post, str exc = (pre ++ "session channel closed" ++ post)%string) ->
   mcp_client.slim_reader model_validate_json [Throw exc]
   = Some (RExit (Raises TerminateTaskGroup), [CloseInbound]))
  /\ (~ (exists pre post, str exc = (pre ++ "session channel closed" ++ post)%string) ->
      mcp_client.slim_reader model_validate_json [Throw exc; Value Delivered]
      = Some (RExit (Returns tt),
              [LogError "Error receiving message"; Forward (inr exc); CloseInbound]))
  /\ ((exists pre post, str exc = (pre ++ "session closed" ++ post)%string) ->
      mcp_server.slim_reader model_validate_json [Throw exc]
      = Some (RExit (Raises TerminateTaskGroup), [CloseInbound]))
  /\ (~ (exists pre post, str exc = (pre ++ "session closed" ++ post)%string) ->
      mcp_server.slim_reader model_validate_json [Throw exc; Value Delivered]
      = Some (RExit (Returns tt),
              [LogError "Error receiving message"; Forward (inr exc); CloseInbound]))
  /\ contains mcp_server.closed_marker mcp_client.closed_marker = false
  /\ contains mcp_client.closed_marker mcp_server.closed_marker = false.
Proof.
  intros He. repeat split; try reflexivity.
  - intros H. apply contains_spec in H.
    unfold mcp_client.slim_reader, slim_reader. cbn [run].
    rewrite (reader_closed model_validate_json _ (pc:=RReceive)); auto.
  - intros H. apply contains_false_spec in H.
    apply reader_forwards_error; auto.
  - intros H. apply contains_spec in H.
    unfold mcp_server.slim_reader, slim_reader. cbn [run].
    rewrite (reader_closed model_validate_json _ (pc:=RReceive)); auto.
  - intros H. apply contains_false_spec in H.
    apply reader_forwards_error; auto.
Qed.

Lemma closed_classification_witness :
  ((exists pre post,
       str (Error "receive error: session channel closed")
       = (pre ++ "session channel closed" ++ post)%string) ->
   mcp_client.slim_reader Sample.model_validate_json
                          [Throw (Error "receive error: session channel closed")]
   = Some (RExit (Raises TerminateTaskGroup), [CloseInbound]))
  /\ (~ (exists pre post,
            str (Error "receive error: session channel closed")
            = (pre ++ "session channel closed" ++ post)%string) ->
      mcp_client.slim_reader Sample.model_validate_json
        [Throw (Error "receive error: session channel closed"); Value Delivered]
      = Some (RExit (Returns tt),
              [LogError "Error receiving message";
               Forward (inr (Error "receive error: session channel closed"));
               CloseInbound]))
  /\ ((exists pre post,
          str (Error "receive error: session channel closed")
          = (pre ++ "session closed" ++ post)%string) ->
      mcp_server.slim_reader Sample.model_validate_json
                             [Throw (Error "receive error: session channel closed")]
      = Some (RExit (Raises TerminateTaskGroup), [CloseInbound]))
  /\ (~ (exists pre post,
            str (Error "receive error: session channel closed")
            = (pre ++ "session closed" ++ post)%string) ->
      mcp_server.slim_reader Sample.model_validate_json
        [Throw (Error "receive error: session channel closed"); Value Delivered]
      = Some (RExit (Returns tt),
              [LogError "Error receiving message";
               Forward (inr (Error "receive error: session channel closed"));
               CloseInbound]))
  /\ contains mcp_server.closed_marker mcp_client.closed_marker = false
  /\ contains mcp_client.closed_marker mcp_server.closed_marker = false.
Proof.
  apply (closed_classification Sample.model_validate_json
           (Error "receive error: session channel closed")).
  reflexivity.
Defined.

(** The same exception ends the session on the client and is an error value
    on the server. *)
Example client_close_is_server_error :
  mcp_client.slim_reader Sample.model_validate_json
                         [Throw (Error "receive error: session channel closed")]
  = Some (RExit (Raises TerminateTaskGroup), [CloseInbound])
  /\ mcp_server.slim_reader Sample.model_validate_json
       [Throw (Error "receive error: session channel closed"); Value Delivered]
     = Some (RExit (Returns tt),
             [LogError "Error receiving message";
              Forward (inr (Error "receive error: session channel closed"));
              CloseInbound]).
Proof. split; reflexivity. Qed.

(** ** The task group *)

Section BridgeFacts.

Variable message : Type.
Variable model_validate_json : bytes -> result message.
Variable model_dump_json : message -> result bytes.
Variable closed_marker : string.

Local Abbreviation rstep := (reader_step model_validate_json closed_marker).
Local Abbreviation wstep := (writer_step model_dump_json).
Local Abbreviation bstep :=
  (bridge_step model_validate_json model_dump_json closed_marker).
Local Abbreviation brun :=
  (bridge_run model_validate_json model_dump_json closed_marker).

(** The reader publishes nothing and the writer forwards nothing. *)
Lemma reader_step_published (pc pc' : reader_pc message) (i : resumption reader_value)
      (acts : list (action message)) :
  rstep pc i = Some (pc', acts) -> published acts = [].
Proof.
  unfold reader_step, reader_except, reader_finally. intros H.
  destruct pc, i as [[]|exc']; try discriminate;
    repeat match type of H with
           | context [match ?x with _ => _ end] => destruct x
           | context [if ?x then _ else _] => destruct x
           end;
    injection H as <- <-; reflexivity.
Qed.

Lemma writer_step_inbound (pc pc' : writer_pc) (i : resumption (writer_value message))
      (acts : list (action message)) :
  wstep pc i = Some (pc', acts) -> inbound acts = [].
Proof.
  unfold writer_step, writer_except, writer_finally. intros H.
  destruct pc, i as [[]|exc']; try discriminate;
    repeat match type of H with
           | context [match ?x with _ => _ end] => destruct x
           | context [if ?x then _ else _] => destruct x
           end;
    injection H as <- <-; reflexivity.
Qed.

(** What the end of a task changes in the group. *)
Lemma on_task_done_frame (o : result unit) (b : bridge message) :
  reader (on_task_done o b) = reader b
  /\ writer (on_task_done o b) = writer b
  /\ force (on_task_done o b) = force b
  /\ scope (on_task_done o b) = scope b
  /\ trace (on_task_done o b) = trace b
  /\ exists more, errors (on_task_done o b) = errors b ++ more.
Proof.
  destruct o as [u|exc]; [|destruct exc]; simpl;
    try (repeat split; exists []; now rewrite app_nil_r);
    match goal with
    | |- context [if ?c then _ else _] => destruct c
    end; simpl; repeat split; eexists; reflexivity.
Qed.

Lemma on_task_done_returns (u : unit) (b : bridge message) :
  on_task_done (Returns u) b = b.
Proof. reflexivity. Qed.

Lemma on_task_done_cancelled (b : bridge message) :
  on_task_done (Raises CancelledError) b = b.
Proof. reflexivity. Qed.

(** [TaskGroup._on_task_done] for a task that failed while the group was
    not shutting down. *)
Lemma on_task_done_failed (exc : exn) (b : bridge message) :
  exc <> CancelledError ->
  aborting b = false ->
  parent_cancel_requested b = false ->
  on_task_done (Raises exc) b = cancel_parent (abort (record_error exc b)).
Proof.
  intros Hc Ha Hp. destruct exc; try congruence; simpl; now rewrite Ha, Hp.
Qed.

Lemma reader_resumes_inv (b b' : bridge message) (i : resumption reader_value) :
  bstep b (ReaderResumes i) = Some b' ->
  exists pc acts,
    rstep (reader b) (delivered (reader_must_cancel b) i) = Some (pc, acts)
    /\ b' = match pc with
            | RExit o => on_task_done o (set_reader pc acts b)
            | _ => set_reader pc acts b
            end.
Proof.
  unfold bridge_step. destruct (rstep _ _) as [[pc acts]|]; [|discriminate].
  intros H. exists pc, acts. split; [reflexivity|].
  destruct pc; now injection H as <-.
Qed.

Lemma writer_resumes_inv (b b' : bridge message)
      (i : resumption (writer_value message)) :
  bstep b (WriterResumes i) = Some b' ->
  exists pc acts,
    wstep (writer b) (delivered (writer_must_cancel b) i) = Some (pc, acts)
    /\ b' = match pc with
            | WExit o => on_task_done o (set_writer pc acts b)
            | _ => set_writer pc acts b
            end.
Proof.
  unfold bridge_step. destruct (wstep _ _) as [[pc acts]|]; [|discriminate].
  intros H. exists pc, acts. split; [reflexivity|].
  destruct pc; now injection H as <-.
Qed.

(** What one step of the event loop keeps: recorded errors stay, a pump
    that is over stays so and its side of the calls no longer grows, and the
    scope is left only by [TasksJoined]. *)
Lemma bridge_step_frame (b b' : bridge message) (ev : bridge_event message) :
  bstep b ev = Some b' ->
  (exists more, errors b' = errors b ++ more)
  /\ (forall o, reader b = RExit o -> reader b' = RExit o)
  /\ (forall o, writer b = WExit o -> writer b' = WExit o)
  /\ (reader_done (reader b) = true -> inbound (trace b') = inbound (trace b))
  /\ (writer_done (writer b) = true -> published (trace b') = published (trace b))
  /\ (forall o, scope b' = Left o ->
        scope b = Left o
        \/ exists body_exc, scope b = Joining body_exc /\ o = leave body_exc (errors b)).
Proof.
  destruct ev as [i|i| | |exc| ]; intros H.
  - destruct (reader_resumes_inv _ _ H) as (pc & acts & E & ->).
    assert (F : forall b0 : bridge message,
               (reader b0 = pc /\ writer b0 = writer b /\ scope b0 = scope b
                /\ trace b0 = trace b ++ acts
                /\ exists more, errors b0 = errors b ++ more) ->
               (exists more, errors b0 = errors b ++ more)
               /\ (forall o, reader b = RExit o -> reader b0 = RExit o)
               /\ (forall o, writer b = WExit o -> writer b0 = WExit o)
               /\ (reader_done (reader b) = true ->
                   inbound (trace b0) = inbound (trace b))
               /\ (writer_done (writer b) = true ->
                   published (trace b0) = published (trace b))
               /\ (forall o, scope b0 = Left o ->
                     scope b = Left o
                     \/ exists body_exc,
                         scope b = Joining body_exc
                         /\ o = leave body_exc (errors b))).
    { intros b0 (Hr & Hw & Hs & Ht & He). split; [exact He|].
      split; [intros o Ho; rewrite Ho in E; now rewrite reader_exit_final in E|].
      split; [intros o Ho; congruence|].
      split; [intros Hd; destruct (reader b); try discriminate;
              now rewrite reader_exit_final in E|].
      split; [intros _; rewrite Ht; unfold published; rewrite keep_app;
              fold (published acts); rewrite (reader_step_published _ _ E);
              now rewrite app_nil_r|].
      intros o Ho. left. congruence. }
    destruct pc as [|m|exc|o]; apply F; simpl;
      try (repeat split; exists []; now rewrite app_nil_r).
    destruct (on_task_done_frame o (set_reader (RExit o) acts b))
      as (-> & -> & _ & -> & -> & more & ->). simpl. repeat split. now exists more.
  - destruct (writer_resumes_inv _ _ H) as (pc & acts & E & ->).
    assert (F : forall b0 : bridge message,
               (reader b0 = reader b /\ writer b0 = pc /\ scope b0 = scope b
                /\ trace b0 = trace b ++ acts
                /\ exists more, errors b0 = errors b ++ more) ->
               (exists more, errors b0 = errors b ++ more)
               /\ (forall o, reader b = RExit o -> reader b0 = RExit o)
               /\ (forall o, writer b = WExit o -> writer b0 = WExit o)
               /\ (reader_done (reader b) = true ->
                   inbound (trace b0) = inbound (trace b))
               /\ (writer_done (writer b) = true ->
                   published (trace b0) = published (trace b))
               /\ (forall o, scope b0 = Left o ->
                     scope b = Left o
                     \/ exists body_exc,
                         scope b = Joining body_exc
                         /\ o = leave body_exc (errors b))).
    { intros b0 (Hr & Hw & Hs & Ht & He). split; [exact He|].
      split; [intros o Ho; congruence|].
      split; [intros o Ho; rewrite Ho in E; now rewrite writer_exit_final in E|].
      split; [intros _; rewrite Ht; unfold inbound; rewrite keep_app;
              fold (inbound acts); rewrite (writer_step_inbound _ _ E);
              now rewrite app_nil_r|].
      split; [intros Hd; destruct (writer b); try discriminate;
              now rewrite writer_exit_final in E|].
      intros o Ho. left. congruence. }
    destruct pc as [|payload| |o]; apply F; simpl;
      try (repeat split; exists []; now rewrite app_nil_r).
    destruct (on_task_done_frame o (set_writer (WExit o) acts b))
      as (-> & -> & _ & -> & -> & more & ->). simpl. repeat split. now exists more.
  - unfold bridge_step in H. destruct (force b) as [pc|]; [|discriminate].
    destruct (force_termination _ _) as [[[|o] acts]|]; try discriminate.
    injection H as <-.
    destruct (on_task_done_frame o (set_force (FExit o) b))
      as (-> & -> & _ & -> & -> & more & ->). simpl.
    split; [now exists more|]. repeat split; auto.
  - unfold bridge_step in H. destruct (scope b) eqn:Es; try discriminate.
    destruct (aborting b); [discriminate|]. injection H as <-. simpl.
    split; [exists []; now rewrite app_nil_r|]. repeat split; auto.
    intros o Ho; discriminate.
  - unfold bridge_step in H. destruct (scope b) eqn:Es; try discriminate.
    injection H as <-. destruct (aborting b); simpl;
      (split; [exists []; now rewrite app_nil_r|]); repeat split; auto;
      intros o Ho; discriminate.
  - unfold bridge_step in H. destruct (scope b) as [|body_exc|o'] eqn:Es;
      try discriminate.
    destruct (_ && _); [|discriminate]. injection H as <-. simpl.
    split; [exists []; now rewrite app_nil_r|]. repeat split; auto.
    intros o Ho. right. exists body_exc. split; congruence.
Qed.

Lemma bridge_run_frame (evs : list (bridge_event message)) (b b' : bridge message) :
  brun b evs = Some b' ->
  (exists more, errors b' = errors b ++ more)
  /\ (forall o, reader b = RExit o -> reader b' = RExit o)
  /\ (forall o, writer b = WExit o -> writer b' = WExit o)
  /\ (reader_done (reader b) = true -> inbound (trace b') = inbound (trace b))
  /\ (writer_done (writer b) = true -> published (trace b') = published (trace b)).
Proof.
  revert b; induction evs as [|ev evs IH]; intros b H; cbn [bridge_run] in H.
  - injection H as <-. split; [exists []; now rewrite app_nil_r|]. auto.
  - destruct (bstep b ev) as [b1|] eqn:E; [|discriminate].
    destruct (bridge_step_frame _ _ E) as ([m1 E1] & R1 & W1 & I1 & P1 & _).
    destruct (IH _ H) as ([m2 E2] & R2 & W2 & I2 & P2).
    split; [exists (m1 ++ m2); now rewrite E2, E1, app_assoc|].
    split; [auto|]. split; [auto|].
    split; intros Hd.
    + rewrite I2, I1; auto. destruct (reader b) eqn:Er; try discriminate.
      now rewrite (R1 _ eq_refl).
    + rewrite P2, P1; auto. destruct (writer b) eqn:Ew; try discriminate.
      now rewrite (W1 _ eq_refl).
Qed.

(** A recorded error that [except* TerminateTaskGroup] does not handle is
    in the group raised to the caller of the bridge. *)
Lemma leave_reports (exc : exn) (body_exc : option exn) (errs : list exn) :
  In exc errs -> unhandled exc = Some exc -> reports exc (leave body_exc errs).
Proof.
  intros Hin Hu. unfold leave, group_raises.
  set (errs' := errs ++ _).
  assert (Hin' : In exc errs') by (apply in_or_app; now left).
  clearbody errs'. destruct errs' as [|e l]; [destruct Hin'|].
  cbn [unhandled]. pose proof (keep_in unhandled (e :: l) exc Hin' Hu) as Hk.
  destruct (keep unhandled (e :: l)) as [|r rest]; [destruct Hk|].
  now exists (r :: rest).
Qed.

Lemma bridge_run_reports (exc : exn) (evs : list (bridge_event message))
      (b b' : bridge message) :
  unhandled exc = Some exc ->
  In exc (errors b) ->
  (forall o, scope b = Left o -> reports exc o) ->
  brun b evs = Some b' ->
  forall o, scope b' = Left o -> reports exc o.
Proof.
  intros Hu. revert b; induction evs as [|ev evs IH]; intros b Hin Hs H;
    cbn [bridge_run] in H.
  - now injection H as <-.
  - destruct (bstep b ev) as [b1|] eqn:E; [|discriminate].
    destruct (bridge_step_frame _ _ E) as ([m1 E1] & _ & _ & _ & _ & L1).
    apply (IH b1); auto.
    + rewrite E1. apply in_or_app. now left.
    + intros o Ho. destruct (L1 _ Ho) as [Hl|(body_exc & _ & ->)]; auto.
      now apply leave_reports.
Qed.

Lemma bridge_run_app (xs ys : list (bridge_event message)) (b : bridge message) :
  brun b (xs ++ ys) =
  match brun b xs with
  | Some b' => brun b' ys
  | None => None
  end.
Proof.
  revert b; induction xs as [|x xs IH]; intros b; cbn [bridge_run app];
    [reflexivity|].
  destruct (bstep b x); [apply IH|reflexivity].
Qed.

(** Once the group shuts down, the first step of a pump that is still
    running ends it by [CancelledError]; no further error is recorded and
    the group keeps shutting down. *)
Lemma shutting_down_step (b b' : bridge message) (ev : bridge_event message) :
  shutting_down b = true ->
  bstep b ev = Some b' ->
  shutting_down b' = true
  /\ errors b' = errors b
  /\ (forall i, ev = ReaderResumes i ->
        reader b' = RExit (Raises CancelledError)
        /\ trace b' = trace b ++ [CloseInbound])
  /\ (forall i, ev = WriterResumes i ->
        writer b' = WExit (Raises CancelledError)
        /\ trace b' = trace b ++ [CloseOutbound]).
Proof.
  unfold shutting_down. intros Hs H.
  apply andb_prop in Hs as [Hs Hf]. apply andb_prop in Hs as [Hs Hw].
  apply andb_prop in Hs as [Ha Hr].
  destruct ev as [i|i| | |exc| ].
  - destruct (reader_resumes_inv _ _ H) as (pc & acts & E & ->).
    destruct (reader_done (reader b)) eqn:Ed.
    { destruct (reader b); discriminate. }
    simpl in Hr. rewrite Hr in E. simpl in E.
    rewrite (reader_cancelled model_validate_json closed_marker _ Ed) in E.
    injection E as <- <-. simpl. rewrite Ha, Hw, Hf.
    repeat split; intros; reflexivity || discriminate.
  - destruct (writer_resumes_inv _ _ H) as (pc & acts & E & ->).
    destruct (writer_done (writer b)) eqn:Ed.
    { destruct (writer b); discriminate. }
    simpl in Hw. rewrite Hw in E. simpl in E.
    rewrite (writer_cancelled model_dump_json _ Ed) in E.
    injection E as <- <-. simpl. rewrite Ha, Hr, Hf.
    repeat split; intros; reflexivity || discriminate.
  - unfold bridge_step in H. destruct (force b) as [[|o]|] eqn:Ef;
      try discriminate.
    simpl in Hf. rewrite Hf in H. simpl in H. injection H as <-. simpl.
    rewrite Ha, Hr, Hw. repeat split; intros; discriminate.
  - unfold bridge_step in H. destruct (scope b); try discriminate.
    now rewrite Ha in H.
  - unfold bridge_step in H. destruct (scope b); try discriminate.
    rewrite Ha in H. injection H as <-. simpl. rewrite Ha, Hr, Hw, Hf.
    repeat split; intros; discriminate.
  - unfold bridge_step in H. destruct (scope b); try discriminate.
    destruct (_ && _); [|discriminate]. injection H as <-. simpl.
    rewrite Ha, Hr, Hw, Hf. repeat split; intros; discriminate.
Qed.

Lemma shutting_down_run (evs : list (bridge_event message)) (b b' : bridge message) :
  shutting_down b = true ->
  brun b evs = Some b' ->
  shutting_down b' = true /\ errors b' = errors b.
Proof.
  revert b; induction evs as [|ev evs IH]; intros b Hs H; cbn [bridge_run] in H.
  - injection H as <-. now split.
  - destruct (bstep b ev) as [b1|] eqn:E; [|discriminate].
    destruct (@shutting_down_step b b1 ev Hs E) as (Hs1 & E1 & _).
    destruct (IH _ Hs1 H) as (Hs2 & E2). split; congruence.
Qed.

(** A pump that is still running can always be resumed. *)
Lemma reader_can_be_cancelled (b : bridge message) (i : resumption reader_value) :
  reader_done (reader b) = false ->
  reader_must_cancel b = true ->
  bstep b (ReaderResumes i)
  = Some (set_reader (RExit (Raises CancelledError)) [CloseInbound] b).
Proof.
  intros Hd Hc. unfold bridge_step. rewrite Hc. simpl.
  now rewrite (reader_cancelled model_validate_json closed_marker _ Hd).
Qed.

Lemma writer_can_be_cancelled (b : bridge message)
      (i : resumption (writer_value message)) :
  writer_done (writer b) = false ->
  writer_must_cancel b = true ->
  bstep b (WriterResumes i)
  = Some (set_writer (WExit (Raises CancelledError)) [CloseOutbound] b).
Proof.
  intros Hd Hc. unfold bridge_step. rewrite Hc. simpl.
  now rewrite (writer_cancelled model_dump_json _ Hd).
Qed.

(** A task that fails while the group is not shutting down makes it shut
    down. *)
Lemma failed_task_shuts_group_down (exc : exn) (b : bridge message) :
  exc <> CancelledError ->
  aborting b = false ->
  parent_cancel_requested b = false ->
  shutting_down (on_task_done (Raises exc) b) = true.
Proof.
  intros Hne Ha Hp. rewrite on_task_done_failed by assumption.
  unfold shutting_down; simpl.
  destruct (reader_done (reader b)), (writer_done (writer b)),
    (force_done (force b)); reflexivity.
Qed.




(** With the reader over but not failed, the writer goes on publishing
    whatever it is given; and the other way round. *)
Lemma writer_goes_on (n : nat) (m : message) (payload : bytes) (b : bridge message) :
  model_dump_json m = Returns payload ->
  writer b = WNext ->
  writer_must_cancel b = false ->
  exists b',
    brun b (flat_map publish_round (repeat m n)) = Some b'
    /\ writer b' = WNext
    /\ writer_must_cancel b' = false
    /\ reader b' = reader b
    /\ aborting b' = aborting b
    /\ published (trace b') = published (trace b) ++ repeat payload n.
Proof.
  intros Hm. revert b; induction n as [|n IH]; intros b Hw Hc.
  - exists b. cbn [repeat flat_map bridge_run]. rewrite app_nil_r.
    repeat split; assumption.
  - cbn [repeat flat_map]. rewrite bridge_run_app.
    set (b1 := set_writer WNext [Acked]
                 (set_writer WWait []
                    (set_writer (WPublish payload) [Publish payload] b))).
    assert (E : brun b (publish_round m) = Some b1).
    { unfold publish_round, sent_and_acked. cbn [map bridge_run].
      unfold bridge_step at 1. rewrite Hw, Hc. simpl. rewrite Hm. reflexivity. }
    rewrite E. destruct (IH b1 eq_refl eq_refl) as (b' & R & W & C & Rd & A & P).
    exists b'. repeat split; auto. rewrite P. unfold b1; simpl.
    unfold published. rewrite !keep_app. simpl.
    now rewrite <- !app_assoc.
Qed.

Lemma reader_goes_on (n : nat) (payload : bytes) (m : message) (b : bridge message) :
  model_validate_json payload = Returns m ->
  reader b = RReceive ->
  reader_must_cancel b = false ->
  exists b',
    brun b (flat_map receive_round (repeat payload n)) = Some b'
    /\ reader b' = RReceive
    /\ reader_must_cancel b' = false
    /\ writer b' = writer b
    /\ aborting b' = aborting b
    /\ inbound (trace b') = inbound (trace b) ++ repeat (inl m) n.
Proof.
  intros Hm. revert b; induction n as [|n IH]; intros b Hr Hc.
  - exists b. cbn [repeat flat_map bridge_run]. rewrite app_nil_r.
    repeat split; assumption.
  - cbn [repeat flat_map]. rewrite bridge_run_app.
    set (b1 := set_reader RReceive [Forward (inl m)]
                 (set_reader (RSendMessage m) [] b)).
    assert (E : brun b (receive_round payload) = Some b1).
    { unfold receive_round. cbn [bridge_run].
      unfold bridge_step at 1. rewrite Hr, Hc. simpl. rewrite Hm. reflexivity. }
    rewrite E. destruct (IH b1 eq_refl eq_refl) as (b' & R & W & C & Rd & A & P).
    exists b'. repeat split; auto. rewrite P. unfold b1; simpl.
    unfold inbound. rewrite !keep_app. simpl.
    now rewrite <- !app_assoc.
Qed.

(** C5. An exception of [get_message_async] that is classified as the end
    of the session ends [slim_reader] with [TerminateTaskGroup], which
    [except* TerminateTaskGroup] absorbs: the reader logs no error and sends
    nothing to the inbound stream, it only closes it, so the consumer sees
    the items forwarded before and then the end of the stream.  The task
    group takes the end of the reader as a failure and cancels the writer,
    which ends at its next step. *)
Theorem session_closed_ends_reader_cleanly (b : bridge message) (exc : exn) :
  reader b = RReceive ->
  reader_must_cancel b = false ->
  aborting b = false ->
  parent_cancel_requested b = false ->
  is_Exception exc = true ->
  contains closed_marker (str exc) = true ->
  exists b',
    bstep b (ReaderResumes (Throw exc)) = Some b'
    /\ reader b' = RExit (Raises TerminateTaskGroup)
    /\ trace b' = trace b ++ [CloseInbound]
    /\ errors b' = errors b ++ [TerminateTaskGroup]
    /\ unhandled TerminateTaskGroup = None
    /\ shutting_down b' = true
    /\ writer_must_cancel b' = negb (writer_done (writer b))
    /\ (forall j b'', bstep b' (WriterResumes j) = Some b'' ->
          writer b'' = WExit (Raises CancelledError))
    /\ (forall evs b'', brun b' evs = Some b'' ->
          inbound (trace b'') = inbound (trace b)
          /\ errors b'' = errors b ++ [TerminateTaskGroup])
    /\ (forall body_exc,
          errors b = [] ->
          body_exc = None \/ body_exc = Some CancelledError ->
          leave body_exc (errors b') = Returns tt).
Proof.
  intros Hpc Hmc Ha Hp He Hc.
  set (b0 := set_reader (RExit (Raises TerminateTaskGroup)) [CloseInbound] b).
  set (b' := cancel_parent (abort (record_error TerminateTaskGroup b0))).
  assert (Hstep : bstep b (ReaderResumes (Throw exc)) = Some b').
  { unfold bridge_step. rewrite Hmc, Hpc. simpl. unfold reader_except.
    rewrite He, Hc. simpl. now rewrite Ha, Hp. }
  assert (Hsd : shutting_down b' = true).
  { unfold shutting_down; simpl. destruct (writer_done (writer b));
      destruct (force_done (force b)); reflexivity. }
  exists b'. split; [exact Hstep|]. repeat split; try reflexivity; try exact Hsd.
  - intros j b'' H.
    now destruct (@shutting_down_step b' b'' _ Hsd H) as (_ & _ & _ & W);
      destruct (W j eq_refl).
  - destruct (@bridge_run_frame evs b' b'' H) as (_ & _ & _ & I & _).
    rewrite I by reflexivity. simpl. unfold inbound. rewrite keep_app. simpl.
    now rewrite app_nil_r.
  - now destruct (@shutting_down_run evs b' b'' Hsd H) as (_ & ->).
  - intros body_exc Hnil [->| ->]; simpl; now rewrite Hnil.
Qed.

(** C2, as the code has it. While the group is not shutting down:
    a pump that ends by raising an exception other than a cancellation
    (the reader at the end of the session, the writer after a failed send)
    makes the group shut down, that is, requests the cancellation of every
    task still running; a pump that returns (the reader after it forwarded
    an error, the writer when the outbound stream is exhausted) leaves the
    other pump as it is; when the body of the scope returns,
    [force_termination] is spawned and its [TerminateTaskGroup] makes the
    group shut down, after which one resumption of each pump still running
    ends it and the scope is left.  In a group that shuts down, a pump still
    running can be resumed and its first step ends it by [CancelledError]. *)
Theorem failure_or_scope_exit_stops_the_pumps (b : bridge message) :
  aborting b = false ->
  parent_cancel_requested b = false ->
  (forall i b' exc,
      bstep b (ReaderResumes i) = Some b' ->
      reader b' = RExit (Raises exc) -> exc <> CancelledError ->
      shutting_down b' = true)
  /\ (forall j b' exc,
        bstep b (WriterResumes j) = Some b' ->
        writer b' = WExit (Raises exc) -> exc <> CancelledError ->
        shutting_down b' = true)
  /\ (forall i b' u,
        bstep b (ReaderResumes i) = Some b' ->
        reader b' = RExit (Returns u) ->
        aborting b' = false /\ writer b' = writer b
        /\ writer_must_cancel b' = writer_must_cancel b)
  /\ (forall j b' u,
        bstep b (WriterResumes j) = Some b' ->
        writer b' = WExit (Returns u) ->
        aborting b' = false /\ reader b' = reader b
        /\ reader_must_cancel b' = reader_must_cancel b)
  /\ (scope b = InBody ->
      forall i j,
      exists b1 b2,
        brun b [BodyReturns; ForceRuns] = Some b1
        /\ shutting_down b1 = true
        /\ errors b1 = errors b ++ [TerminateTaskGroup]
        /\ brun b1 (resume_pumps b i j ++ [TasksJoined]) = Some b2
        /\ reader_done (reader b2) = true
        /\ writer_done (writer b2) = true
        /\ scope b2 = Left (leave None (errors b ++ [TerminateTaskGroup])))
  /\ (forall b0,
        shutting_down b0 = true ->
        (forall i, reader_done (reader b0) = false ->
                   exists b1, bstep b0 (ReaderResumes i) = Some b1
                              /\ reader b1 = RExit (Raises CancelledError)
                              /\ shutting_down b1 = true)
        /\ (forall j, writer_done (writer b0) = false ->
                      exists b1, bstep b0 (WriterResumes j) = Some b1
                                 /\ writer b1 = WExit (Raises CancelledError)
                                 /\ shutting_down b1 = true)).
Proof.
  intros Ha Hp.
  split; [|split; [|split; [|split; [|split]]]].
  - intros i b' exc H Hr Hne.
    destruct (reader_resumes_inv _ _ H) as (pc & acts & E & ->).
    destruct pc as [|m|e|o]; try discriminate.
    destruct (on_task_done_frame o (set_reader (RExit o) acts b)) as (Er & _).
    rewrite Er in Hr. simpl in Hr. injection Hr as ->.
    now apply failed_task_shuts_group_down.
  - intros j b' exc H Hw Hne.
    destruct (writer_resumes_inv _ _ H) as (pc & acts & E & ->).
    destruct pc as [|payload| |o]; try discriminate.
    destruct (on_task_done_frame o (set_writer (WExit o) acts b))
      as (_ & Ew & _).
    rewrite Ew in Hw. simpl in Hw. injection Hw as ->.
    now apply failed_task_shuts_group_down.
  - intros i b' u H Hr.
    destruct (reader_resumes_inv _ _ H) as (pc & acts & E & ->).
    destruct pc as [|m|e|o]; try discriminate.
    destruct (on_task_done_frame o (set_reader (RExit o) acts b)) as (Er & _).
    rewrite Er in Hr. simpl in Hr. injection Hr as ->. simpl. auto.
  - intros j b' u H Hw.
    destruct (writer_resumes_inv _ _ H) as (pc & acts & E & ->).
    destruct pc as [|payload| |o]; try discriminate.
    destruct (on_task_done_frame o (set_writer (WExit o) acts b))
      as (_ & Ew & _).
    rewrite Ew in Hw. simpl in Hw. injection Hw as ->. simpl. auto.
  - intros Hs i j.
    set (b0 := set_force (FExit (Raises TerminateTaskGroup))
                         (set_scope (Joining None) (set_force FCreated b))).
    set (b1 := cancel_parent (abort (record_error TerminateTaskGroup b0))).
    assert (H1 : brun b [BodyReturns; ForceRuns] = Some b1).
    { cbn [bridge_run]. unfold bridge_step at 1. rewrite Hs, Ha.
      unfold bridge_step; simpl. now rewrite Ha, Hp. }
    assert (Hsd : shutting_down b1 = true).
    { unfold shutting_down; simpl.
      destruct (reader_done (reader b)), (writer_done (writer b)); reflexivity. }
    unfold resume_pumps.
    destruct (reader_done (reader b)) eqn:Dr, (writer_done (writer b)) eqn:Dw.
    + eexists b1, _. split; [exact H1|]. split; [exact Hsd|].
      split; [reflexivity|]. cbn [app bridge_run]. unfold bridge_step; simpl.
      rewrite Dr, Dw. simpl. repeat split; assumption.
    + eexists b1, _. split; [exact H1|]. split; [exact Hsd|].
      split; [reflexivity|]. cbn [app bridge_run].
      rewrite writer_can_be_cancelled by (simpl; now rewrite ?Dw).
      unfold bridge_step; simpl. rewrite Dr. simpl. repeat split; assumption.
    + eexists b1, _. split; [exact H1|]. split; [exact Hsd|].
      split; [reflexivity|]. cbn [app bridge_run].
      rewrite reader_can_be_cancelled by (simpl; now rewrite ?Dr).
      unfold bridge_step; simpl. rewrite Dw. simpl. repeat split; assumption.
    + eexists b1, _. split; [exact H1|]. split; [exact Hsd|].
      split; [reflexivity|]. cbn [app bridge_run].
      rewrite reader_can_be_cancelled by (simpl; now rewrite ?Dr).
      rewrite writer_can_be_cancelled by (simpl; now rewrite ?Dw).
      unfold bridge_step; simpl. repeat split; reflexivity.
  - intros b0 Hsd. unfold shutting_down in Hsd.
    apply andb_prop in Hsd as [Hsd Hf]. apply andb_prop in Hsd as [Hsd Hw].
    apply andb_prop in Hsd as [Ha0 Hr].
    split.
    + intros i Hd. rewrite Hd in Hr. simpl in Hr.
      eexists. split; [now apply reader_can_be_cancelled|].
      split; [reflexivity|]. unfold shutting_down; simpl.
      now rewrite Ha0, Hw, Hf.
    + intros j Hd. rewrite Hd in Hw. simpl in Hw.
      eexists. split; [now apply writer_can_be_cancelled|].
      split; [reflexivity|]. unfold shutting_down; simpl.
      now rewrite Ha0, Hr, Hf.
Qed.

(** C4. When [publish_async], or the wait for its completion, raises in
    [slim_writer], the pump logs the error, closes its end of the outbound
    stream and ends with that exception: it publishes nothing then and
    nothing ever after.  The exception is recorded by the task group and
    the caller of the bridge is raised a group that holds it. *)
Theorem send_failure_stops_writer_and_reaches_caller
        (b : bridge message) (exc : exn) :
  (exists payload, writer b = WPublish payload) \/ writer b = WWait ->
  writer_must_cancel b = false ->
  is_Exception exc = true ->
  unhandled exc = Some exc ->
  (forall o, scope b <> Left o) ->
  exists b',
    bstep b (WriterResumes (Throw exc)) = Some b'
    /\ writer b' = WExit (Raises exc)
    /\ trace b' = trace b ++ [LogError "Error sending message"; CloseOutbound]
    /\ In exc (errors b')
    /\ forall evs b'',
         brun b' evs = Some b'' ->
         writer b'' = WExit (Raises exc)
         /\ published (trace b'') = published (trace b)
         /\ forall o, scope b'' = Left o -> reports exc o.
Proof.
  intros Hpc Hmc He Hu Hs.
  assert (Hstep : wstep (writer b) (Throw exc)
                  = Some (WExit (Raises exc),
                          [LogError "Error sending message"; CloseOutbound])).
  { destruct Hpc as [[payload ->]| ->]; simpl; unfold writer_except; simpl;
      now rewrite He. }
  assert (Hne : exc <> CancelledError) by (intros ->; discriminate).
  set (b0 := set_writer (WExit (Raises exc))
                        [LogError "Error sending message"; CloseOutbound] b).
  exists (on_task_done (Raises exc) b0).
  destruct (on_task_done_frame (Raises exc) b0) as (Fr & Fw & _ & Fs & Ft & _).
  assert (Hin : In exc (errors (on_task_done (Raises exc) b0))).
  { destruct exc; try congruence; simpl;
      match goal with |- context [if ?c then _ else _] => destruct c end;
      simpl; apply in_or_app; right; now left. }
  split; [unfold bridge_step; rewrite Hmc; simpl; now rewrite Hstep|].
  split; [now rewrite Fw|]. split; [now rewrite Ft|]. split; [exact Hin|].
  intros evs b'' Hrun.
  destruct (@bridge_run_frame evs _ _ Hrun) as (_ & _ & W & _ & P).
  split; [apply W; now rewrite Fw|].
  split.
  - rewrite P by now rewrite Fw. rewrite Ft. unfold b0; simpl.
    unfold published. rewrite keep_app. simpl. now rewrite app_nil_r.
  - apply (@bridge_run_reports exc evs (on_task_done (Raises exc) b0) b'' Hu Hin);
      auto.
    intros o Ho. rewrite Fs in Ho. unfold b0 in Ho; simpl in Ho.
    now destruct (Hs o).
Qed.

End BridgeFacts.

Lemma send_failure_stops_writer_and_reaches_caller_witness :
  exists b',
    mcp_client.bridge_step Sample.model_validate_json Sample.model_dump_json
      Sample.publishing (WriterResumes (Throw (Error "publish failed"))) = Some b'
    /\ writer b' = WExit (Raises (Error "publish failed"))
    /\ trace b' = trace Sample.publishing
                   ++ [LogError "Error sending message"; CloseOutbound]
    /\ In (Error "publish failed") (errors b')
    /\ forall evs b'',
         bridge_run Sample.model_validate_json Sample.model_dump_json
                    mcp_client.closed_marker b' evs = Some b'' ->
         writer b'' = WExit (Raises (Error "publish failed"))
         /\ published (trace b'') = published (trace Sample.publishing)
         /\ forall o, scope b'' = Left o -> reports (Error "publish failed") o.
Proof.
  apply (@send_failure_stops_writer_and_reaches_caller Sample.message
           Sample.model_validate_json Sample.model_dump_json
           mcp_client.closed_marker Sample.publishing (Error "publish failed")).
  - left. exists Sample.ping. reflexivity.
  - reflexivity.
  - reflexivity.
  - reflexivity.
  - intros o. simpl. discriminate.
Defined.

(** C2, as the claim words it, fails: the end of a pump does not always end
    the other.  On the client bridge, the reader forwards a transport failure
    and returns; the group does not shut down and the writer, still parked on
    the outbound stream, publishes as many messages as it is given.
    Likewise the writer returns when the outbound stream is exhausted and
    the reader goes on forwarding what the session delivers. *)
Lemma returning_pump_leaves_the_other_running :
  (exists b1,
      mcp_client.bridge_run Sample.model_validate_json Sample.model_dump_json
        create_mcp_streams
        [ReaderResumes (Throw (Error "connection reset"));
         ReaderResumes (Value Delivered)] = Some b1
      /\ reader b1 = RExit (Returns tt)
      /\ writer b1 = WNext
      /\ writer_must_cancel b1 = false
      /\ aborting b1 = false
      /\ forall n,
         exists b2,
           mcp_client.bridge_run Sample.model_validate_json Sample.model_dump_json
             b1 (flat_map publish_round (repeat Sample.ping n)) = Some b2
           /\ writer b2 = WNext
           /\ writer_must_cancel b2 = false
           /\ published (trace b2) = repeat Sample.ping n)
  /\ (exists b1,
        mcp_client.bridge_run Sample.model_validate_json Sample.model_dump_json
          create_mcp_streams [WriterResumes (Value Exhausted)] = Some b1
        /\ writer b1 = WExit (Returns tt)
        /\ reader b1 = RReceive
        /\ reader_must_cancel b1 = false
        /\ aborting b1 = false
        /\ forall n,
           exists b2,
             mcp_client.bridge_run Sample.model_validate_json Sample.model_dump_json
               b1 (flat_map receive_round (repeat "{}" n)) = Some b2
             /\ reader b2 = RReceive
             /\ reader_must_cancel b2 = false
             /\ inbound (trace b2) = repeat (inl "{}") n).
Proof.
  split.
  - eexists. split; [reflexivity|]. repeat split. intros n.
    match goal with
    | |- exists b2, mcp_client.bridge_run _ _ ?b _ = _ /\ _ =>
        destruct (@writer_goes_on Sample.message Sample.model_validate_json
                    Sample.model_dump_json mcp_client.closed_marker
                    n Sample.ping Sample.ping b eq_refl eq_refl eq_refl)
          as (b2 & R & W & C & _ & _ & P)
    end.
    exists b2. repeat split; assumption.
  - eexists. split; [reflexivity|]. repeat split. intros n.
    match goal with
    | |- exists b2, mcp_client.bridge_run _ _ ?b _ = _ /\ _ =>
        destruct (@reader_goes_on Sample.message Sample.model_validate_json
                    Sample.model_dump_json mcp_client.closed_marker
                    n "{}" "{}" b eq_refl eq_refl eq_refl)
          as (b2 & R & W & C & _ & _ & P)
    end.
    exists b2. repeat split; assumption.
Qed.

Lemma session_closed_ends_reader_cleanly_witness :
  exists b' : bridge Sample.message,
    mcp_client.bridge_step Sample.model_validate_json Sample.model_dump_json
      Sample.opened
      (ReaderResumes (Throw (Error "receive error: session channel closed")))
    = Some b'
    /\ reader b' = RExit (Raises TerminateTaskGroup)
    /\ trace b' = trace Sample.opened ++ [CloseInbound]
    /\ errors b' = errors Sample.opened ++ [TerminateTaskGroup]
    /\ unhandled TerminateTaskGroup = None
    /\ shutting_down b' = true
    /\ writer_must_cancel b' = negb (writer_done (writer Sample.opened))
    /\ (forall (j : resumption (writer_value Sample.message)) b'',
          mcp_client.bridge_step Sample.model_validate_json Sample.model_dump_json
            b' (WriterResumes j) = Some b'' ->
          writer b'' = WExit (Raises CancelledError))
    /\ (forall evs b'',
          mcp_client.bridge_run Sample.model_validate_json Sample.model_dump_json
            b' evs = Some b'' ->
          inbound (trace b'') = inbound (trace Sample.opened)
          /\ errors b'' = errors Sample.opened ++ [TerminateTaskGroup])
    /\ (forall body_exc,
          errors Sample.opened = [] ->
          body_exc = None \/ body_exc = Some CancelledError ->
          leave body_exc (errors b') = Returns tt).
Proof.
  apply (@session_closed_ends_reader_cleanly Sample.message
           Sample.model_validate_json Sample.model_dump_json
           mcp_client.closed_marker Sample.opened
           (Error "receive error: session channel closed"));
    reflexivity.
Defined.

(** The session ends while the consumer is in its body: the reader raises
    [TerminateTaskGroup], the body and the writer are cancelled, and the
    bridge is left without an error. *)
Example session_closed_leaves_bridge_quietly :
  exists b,
    mcp_client.bridge_run Sample.model_validate_json Sample.model_dump_json
      Sample.opened
      [ReaderResumes (Throw (Error "receive error: session channel closed"));
       BodyRaises CancelledError;
       WriterResumes (Value (Taken Sample.ping));
       TasksJoined] = Some b
    /\ scope b = Left (Returns tt)
    /\ writer b = WExit (Raises CancelledError)
    /\ trace b = [CloseInbound; CloseOutbound].
Proof. eexists. split; [reflexivity|]. repeat split. Qed.

Lemma failure_or_scope_exit_stops_the_pumps_witness :
  aborting Sample.opened = false
  /\ parent_cancel_requested Sample.opened = false
  /\ exists b1 b2 : bridge Sample.message,
      mcp_server.bridge_run Sample.model_validate_json Sample.model_dump_json
        Sample.opened [BodyReturns; ForceRuns] = Some b1
      /\ shutting_down b1 = true
      /\ errors b1 = errors Sample.opened ++ [TerminateTaskGroup]
      /\ mcp_server.bridge_run Sample.model_validate_json Sample.model_dump_json b1
           (resume_pumps Sample.opened (Value (Received "{}"))
                         (Value (Taken Sample.ping)) ++ [TasksJoined]) = Some b2
      /\ reader_done (reader b2) = true
      /\ writer_done (writer b2) = true
      /\ scope b2 = Left (leave None (errors Sample.opened ++ [TerminateTaskGroup])).
Proof.
  split; [reflexivity|]. split; [reflexivity|].
  destruct (@failure_or_scope_exit_stops_the_pumps Sample.message
              Sample.model_validate_json Sample.model_dump_json
              mcp_server.closed_marker Sample.opened eq_refl eq_refl)
    as (_ & _ & _ & _ & H & _).
  exact (H eq_refl (Value (Received "{}")) (Value (Taken Sample.ping))).
Defined.

(** The consumer leaves the scope while both pumps are parked: the scope is
    left without an error and both streams are closed. *)
Example scope_exit_stops_parked_pumps :
  exists b,
    mcp_server.bridge_run Sample.model_validate_json Sample.model_dump_json
      Sample.opened
      [BodyReturns; ForceRuns; ReaderResumes (Value (Received "{}"));
       WriterResumes (Value (Taken Sample.ping)); TasksJoined] = Some b
    /\ scope b = Left (Returns tt)
    /\ reader b = RExit (Raises CancelledError)
    /\ writer b = WExit (Raises CancelledError)
    /\ trace b = [CloseInbound; CloseOutbound].
Proof. eexists. split; [reflexivity|]. repeat split. Qed.

(** ** [create_local_app] *)

(** C9. With a client configuration given, when [service.connect_async]
    raises an exception whose text contains ["client already connected"],
    [create_local_app] drops it and carries on without a connection: it
    returns the app made by [create_app_with_secret] with [None] for the
    connection id, and subscribes nothing.  Any other exception of
    [connect_async] is raised to the caller. *)
Theorem already_connected_is_ignored {name client_config app : Type}
        (svc : helpers.service name client_config app)
        (local_name : name) (cfg : client_config)
        (enable_opentelemetry : bool) (shared_secret : string) (e : exn) :
  helpers.connect_async svc cfg = Raises e ->
  (is_Exception e = true ->
   (exists pre post, str e = (pre ++ "client already connected" ++ post)%string) ->
   forall local_app,
     helpers.create_app_with_secret svc local_name shared_secret = Returns local_app ->
     helpers.create_local_app (Returns svc) local_name (Some cfg)
                              enable_opentelemetry shared_secret
     = Returns (local_app, None))
  /\ (is_Exception e = false
      \/ ~ (exists pre post, str e = (pre ++ "client already connected" ++ post)%string) ->
      helpers.create_local_app (Returns svc) local_name (Some cfg)
                               enable_opentelemetry shared_secret
      = Raises e).
Proof.
  intros Hc. split.
  - intros He Hs local_app Ha. apply contains_spec in Hs.
    unfold helpers.create_local_app, helpers.setup_service, helpers.connect.
    cbn [helpers.bind]. rewrite Hc, He, Hs. cbn [negb helpers.bind].
    now rewrite Ha.
  - intros Hs.
    unfold helpers.create_local_app, helpers.setup_service, helpers.connect.
    cbn [helpers.bind]. rewrite Hc. destruct Hs as [He|Hs].
    + now rewrite He.
    + apply contains_false_spec in Hs. rewrite Hs. now destruct (is_Exception e).
Qed.

Lemma already_connected_is_ignored_witness :
  (is_Exception (Error "connection error: client already connected") = true ->
   (exists pre post,
       str (Error "connection error: client already connected")
       = (pre ++ "client already connected" ++ post)%string) ->
   forall local_app,
     helpers.create_app_with_secret Sample.connected "org/ns/app" "secret"
     = Returns local_app ->
     helpers.create_local_app (Returns Sample.connected) "org/ns/app"
                              (Some "http://localhost:46357") false "secret"
     = Returns (local_app, None))
  /\ (is_Exception (Error "connection error: client already connected") = false
      \/ ~ (exists pre post,
               str (Error "connection error: client already connected")
               = (pre ++ "client already connected" ++ post)%string) ->
      helpers.create_local_app (Returns Sample.connected) "org/ns/app"
                               (Some "http://localhost:46357") false "secret"
      = Raises (Error "connection error: client already connected")).
Proof.
  apply (already_connected_is_ignored Sample.connected "org/ns/app"
           "http://localhost:46357" false "secret"
           (e:=Error "connection error: client already connected")).
  reflexivity.
Defined.

(** A second app on a service that is connected already: the error is
    dropped, the app is made, there is no connection id. *)
Example second_app_on_connected_service :
  helpers.create_local_app (Returns Sample.connected) "org/ns/app"
                           (Some "http://localhost:46357") false "secret"
  = Returns ("org/ns/app", None).
Proof. reflexivity. Qed.

(** An unreachable endpoint is reported to the caller. *)
Example unreachable_endpoint_is_raised :
  helpers.create_local_app (Returns Sample.unreachable) "org/ns/app"
                           (Some "http://localhost:46357") false "secret"
  = Raises (Error "connection error: transport error").
Proof. reflexivity. Qed.

(** ** [create_slim_session] *)

(** Every run of [create_slim_session], by cases on what the transport and
    the body of the [async with] do. *)
Ltac session_runs H inputs :=
  destruct inputs as [|[[]|] inputs];
  cbn in H; try discriminate; try (session_runs H inputs).

(** C7. [create_slim_session] yields the session only after the completion of
    its creation has been awaited, and once the body of the [async with] is
    over, by a return or by an exception, it calls [delete_session_async] on
    that session and waits for the completion of the deletion; the exception
    of the body, if any, then goes on to the caller.  In every run where the
    session was yielded and the context manager is over, the deletion of the
    session has been requested. *)
Theorem session_is_established_before_yield_and_deleted_after
        (s : session) (exc : exn) :
  mcp_client.create_slim_session
    [Value (mcp_client.Created s); Value mcp_client.Established;
     Value mcp_client.BodyEnds;
     Value mcp_client.DeleteCompletion; Value mcp_client.Deleted]
  = Some (mcp_client.SExit (Returns tt),
          [mcp_client.AwaitedEstablished s; mcp_client.Yield s;
           mcp_client.DeleteSession s; mcp_client.AwaitedDeleted s])
  /\ mcp_client.create_slim_session
       [Value (mcp_client.Created s); Value mcp_client.Established;
        Throw exc;
        Value mcp_client.DeleteCompletion; Value mcp_client.Deleted]
     = Some (mcp_client.SExit (Raises exc),
             [mcp_client.AwaitedEstablished s; mcp_client.Yield s;
              mcp_client.DeleteSession s; mcp_client.AwaitedDeleted s])
  /\ forall inputs pc t,
      mcp_client.create_slim_session inputs = Some (pc, t) ->
      In (mcp_client.Yield s) t ->
      (exists rest,
          inputs = Value (mcp_client.Created s) :: Value mcp_client.Established :: rest)
      /\ (exists t', t = mcp_client.AwaitedEstablished s :: mcp_client.Yield s :: t')
      /\ (forall o, pc = mcp_client.SExit o ->
                    exists t', t = [mcp_client.AwaitedEstablished s; mcp_client.Yield s;
                                    mcp_client.DeleteSession s] ++ t').
Proof.
  split; [reflexivity|]. split; [reflexivity|].
  intros inputs pc t H Hin. unfold mcp_client.create_slim_session in H.
  session_runs H inputs; injection H as <- <-; simpl in Hin;
    repeat (destruct Hin as [Hin|Hin]; try discriminate); try contradiction;
    injection Hin as ->;
    (split; [eexists; reflexivity|]);
    (split; [eexists; reflexivity|]);
    intros o Ho; try discriminate; eexists; reflexivity.
Qed.

(** A body that raises: the session is deleted all the same and the
    exception reaches the caller. *)
Example session_deleted_when_body_raises :
  mcp_client.create_slim_session
    [Value (mcp_client.Created {| session_id := 7 |}); Value mcp_client.Established;
     Throw (Error "tool call failed");
     Value mcp_client.DeleteCompletion; Value mcp_client.Deleted]
  = Some (mcp_client.SExit (Raises (Error "tool call failed")),
          [mcp_client.AwaitedEstablished {| session_id := 7 |};
           mcp_client.Yield {| session_id := 7 |};
           mcp_client.DeleteSession {| session_id := 7 |};
           mcp_client.AwaitedDeleted {| session_id := 7 |}]).
Proof. reflexivity. Qed.

(** ** [run_mcp_server] *)

Lemma set_task_other (k j : nat) (o : result unit) (ts : list (option (result unit))) :
  j <> k -> nth_error (mcp_server.set_task k o ts) j = nth_error ts j.
Proof.
  revert j ts; induction k as [|k IH]; intros j [|t ts] Hj; simpl; try reflexivity.
  - destruct j; [congruence|reflexivity].
  - destruct j; [reflexivity|]. simpl. apply IH. congruence.
Qed.

Lemma set_task_same (k : nat) (o : result unit) (ts : list (option (result unit))) :
  k < length ts -> nth_error (mcp_server.set_task k o ts) k = Some (Some o).
Proof.
  revert ts; induction k as [|k IH]; intros [|t ts] Hk; simpl in *; try lia.
  - reflexivity.
  - apply IH. lia.
Qed.

(** One event leaves the accept loop listening unless it is an exception of
    [listen_for_session_async] that [except Exception] does not catch. *)
Lemma server_step_listening (st st' : mcp_server.server) (ev : mcp_server.server_event) :
  mcp_server.server_step st ev = Some st' ->
  mcp_server.loop st = mcp_server.Listening ->
  mcp_server.loop st' = mcp_server.Listening
  \/ exists e, ev = mcp_server.Accept (Throw e) /\ is_Exception e = false
               /\ mcp_server.loop st' = mcp_server.Stopped e.
Proof.
  intros H Hl. destruct ev as [[s|e]|k o]; unfold mcp_server.server_step in H.
  - rewrite Hl in H. injection H as <-. now left.
  - rewrite Hl in H. destruct (is_Exception e) eqn:He; injection H as <-.
    + now left.
    + right. now exists e.
  - destruct (nth_error _ k) as [[|]|]; try discriminate.
    destruct (mcp_server.handle_session _ o) as [o' texts].
    injection H as <-. now left.
Qed.

(** C6. In [run_mcp_server], an exception raised by
    [listen_for_session_async] is logged and the loop goes on listening; an
    exception raised in the task of a session is caught and logged by
    [handle_session], whose task then ends normally, the accept loop and the
    other tasks being left as they are; and over any sequence of events the
    loop stays listening unless [listen_for_session_async] raises an
    exception that is not an [Exception], such as a cancellation. *)
Theorem accept_loop_survives_failures (st : mcp_server.server) :
  mcp_server.loop st = mcp_server.Listening ->
  (forall e,
      is_Exception e = true ->
      mcp_server.server_step st (mcp_server.Accept (Throw e))
      = Some {| mcp_server.loop := mcp_server.Listening;
                mcp_server.session_var := mcp_server.session_var st;
                mcp_server.tasks := mcp_server.tasks st;
                mcp_server.log :=
                  mcp_server.log st ++ [("Error accepting session: " ++ str e)%string] |})
  /\ (forall k e,
        is_Exception e = true ->
        nth_error (mcp_server.tasks st) k = Some None ->
        exists st',
          mcp_server.server_step st (mcp_server.HandlerBody k (Raises e)) = Some st'
          /\ mcp_server.loop st' = mcp_server.Listening
          /\ nth_error (mcp_server.tasks st') k = Some (Some (Returns tt))
          /\ (forall j, j <> k ->
                        nth_error (mcp_server.tasks st') j
                        = nth_error (mcp_server.tasks st) j)
          /\ mcp_server.log st'
             = mcp_server.log st
                 ++ [("Error handling session "
                        ++ mcp_server.session_text (mcp_server.session_var st)
                        ++ ": " ++ str e)%string])
  /\ (forall evs st',
        mcp_server.server_run st evs = Some st' ->
        (forall e, In (mcp_server.Accept (Throw e)) evs -> is_Exception e = true) ->
        mcp_server.loop st' = mcp_server.Listening).
Proof.
  intros Hl. split; [|split].
  - intros e He. unfold mcp_server.server_step. now rewrite Hl, He.
  - intros k e He Hk. unfold mcp_server.server_step, mcp_server.handle_session.
    rewrite Hk, He. eexists. split; [reflexivity|]. simpl.
    split; [exact Hl|]. split; [|split; [|reflexivity]].
    + apply set_task_same. apply nth_error_Some. congruence.
    + intros j Hj. now apply set_task_other.
  - intros evs. revert st Hl. induction evs as [|ev evs IH]; intros st Hl st' H Hc;
      cbn [mcp_server.server_run] in H.
    + now injection H as <-.
    + destruct (mcp_server.server_step st ev) as [st1|] eqn:E; [|discriminate].
      destruct (server_step_listening _ _ E Hl) as [Hl1|(e & -> & He & _)].
      * apply (IH st1 Hl1 st' H). intros e He. apply Hc. now right.
      * rewrite (Hc e) in He by now left. discriminate.
Qed.

Lemma accept_loop_survives_failures_witness :
  (forall e,
      is_Exception e = true ->
      mcp_server.server_step mcp_server.run_mcp_server (mcp_server.Accept (Throw e))
      = Some {| mcp_server.loop := mcp_server.Listening;
                mcp_server.session_var := None;
                mcp_server.tasks := [];
                mcp_server.log := [("Error accepting session: " ++ str e)%string] |})
  /\ mcp_server.server_run mcp_server.run_mcp_server
       [mcp_server.Accept (Throw (Error "listen timed out"));
        mcp_server.Accept (Value {| session_id := 1 |});
        mcp_server.HandlerBody 0 (Raises (Error "handler crashed"));
        mcp_server.Accept (Value {| session_id := 2 |})]
     = Some {| mcp_server.loop := mcp_server.Listening;
               mcp_server.session_var := Some {| session_id := 2 |};
               mcp_server.tasks := [Some (Returns tt); None];
               mcp_server.log :=
                 ["Error accepting session: listen timed out";
                  "Error handling session 1: handler crashed"] |}.
Proof.
  destruct (accept_loop_survives_failures mcp_server.run_mcp_server eq_refl)
    as (Ha & _ & _).
  split; [exact Ha|reflexivity].
Defined.

(** The scenario of the specification: of five sessions the third handler
    fails; the four others end normally and a sixth session is accepted.  The
    text logged names the session accepted last, since [handle_session] reads
    the variable [session] of the loop when it logs. *)
Example third_of_five_handlers_fails :
  exists st,
    mcp_server.server_run mcp_server.run_mcp_server
      [mcp_server.Accept (Value {| session_id := 1 |});
       mcp_server.Accept (Value {| session_id := 2 |});
       mcp_server.Accept (Value {| session_id := 3 |});
       mcp_server.Accept (Value {| session_id := 4 |});
       mcp_server.Accept (Value {| session_id := 5 |});
       mcp_server.HandlerBody 2 (Raises (Error "boom"));
       mcp_server.HandlerBody 0 (Returns tt);
       mcp_server.HandlerBody 1 (Returns tt);
       mcp_server.HandlerBody 3 (Returns tt);
       mcp_server.HandlerBody 4 (Returns tt);
       mcp_server.Accept (Value {| session_id := 6 |})] = Some st
    /\ mcp_server.loop st = mcp_server.Listening
    /\ mcp_server.tasks st
       = [Some (Returns tt); Some (Returns tt); Some (Returns tt);
          Some (Returns tt); Some (Returns tt); None]
    /\ mcp_server.log st = ["Error handling session 5: boom"].
Proof. eexists. split; [reflexivity|]. repeat split. Qed.

(** Only what [except Exception] lets through, a cancellation for one, stops
    the accept loop. *)
Example cancellation_stops_accept_loop :
  mcp_server.server_run mcp_server.run_mcp_server
    [mcp_server.Accept (Throw (Error "listen timed out"));
     mcp_server.Accept (Throw CancelledError)]
  = Some {| mcp_server.loop := mcp_server.Stopped CancelledError;
            mcp_server.session_var := None;
            mcp_server.tasks := [];
            mcp_server.log := ["Error accepting session: listen timed out"] |}.
Proof. reflexivity. Qed.


(** A failed send in the bridge of a session: the bridge is left with a group
    that holds the failure, which [handle_session] logs; the accept loop goes
    on. *)
Example send_failure_in_a_session_is_logged :
  exists b st,
    mcp_server.bridge_run Sample.model_validate_json Sample.model_dump_json
      Sample.opened
      [WriterResumes (Value (Taken Sample.ping));
       WriterResumes (Throw (Error "publish failed"));
       BodyRaises CancelledError;
       ReaderResumes (Value (Received "{}"));
       TasksJoined] = Some b
    /\ scope b
       = Left (Raises (ExceptionGroup "unhandled errors in a TaskGroup"
                                      [Error "publish failed"]))
    /\ mcp_server.server_run mcp_server.run_mcp_server
         [mcp_server.Accept (Value {| session_id := 1 |});
          mcp_server.HandlerBody 0
            (Raises (ExceptionGroup "unhandled errors in a TaskGroup"
                                    [Error "publish failed"]))] = Some st
    /\ mcp_server.loop st = mcp_server.Listening
    /\ mcp_server.tasks st = [Some (Returns tt)]
    /\ mcp_server.log st
       = ["Error handling session 1: unhandled errors in a TaskGroup (1 sub-exception)"].
Proof. do 2 eexists. split; [reflexivity|]. repeat split. Qed.


(** * Further properties of the code *)

(** ** The pumps *)

Section PumpRuns.

Variable message : Type.
Variable model_validate_json : bytes -> result message.
Variable model_dump_json : message -> result bytes.
Variable closed_marker : string.

Local Abbreviation rstep := (reader_step model_validate_json closed_marker).
Local Abbreviation wstep := (writer_step model_dump_json).


(** Once the reader is forwarding an error or is over, it receives and
    forwards no message any more. *)
Lemma reader_past_loop (inputs : list (resumption reader_value))
      (pc pc' : reader_pc message) (t : list (action message)) :
  (exists exc, pc = RSendExc exc) \/ reader_done pc = true ->
  run rstep pc inputs = Some (pc', t) ->
  messages_received model_validate_json inputs = [] /\ messages_forwarded t = [].
Proof.
  revert pc t; induction inputs as [|i inputs IH]; intros pc t Hpc H; cbn [run] in H.
  - injection H as _ <-. now split.
  - destruct (rstep pc i) as [[pc1 acts]|] eqn:E; [|discriminate].
    destruct (run rstep pc1 inputs) as [[pc2 t2]|] eqn:E2; [|discriminate].
    injection H as <- <-.
    assert (K : reader_done pc1 = true /\ messages_forwarded acts = []
                /\ messages_received model_validate_json [i] = []).
    { destruct Hpc as [[exc ->]|Hd].
      - destruct i as [[p|]|exc']; try discriminate; simpl in E;
          injection E as <- <-; repeat split.
      - destruct pc; discriminate. }
    destruct K as (Hd1 & Ha & Hi).
    destruct (IH pc1 t2 (or_intror Hd1) E2) as (Hr & Hf). split.
    + change (i :: inputs) with ([i] ++ inputs). unfold messages_received.
      rewrite keep_app. fold (messages_received model_validate_json [i]).
      fold (messages_received model_validate_json inputs). now rewrite Hi, Hr.
    + unfold messages_forwarded. rewrite keep_app.
      fold (messages_forwarded acts). fold (messages_forwarded t2).
      now rewrite Ha, Hf.
Qed.

Lemma run_reader_forwards (inputs : list (resumption reader_value))
      (pc pc' : reader_pc message) (t : list (action message)) :
  run rstep pc inputs = Some (pc', t) ->
  exists rest,
    pending_message pc ++ messages_received model_validate_json inputs
    = messages_forwarded t ++ rest
    /\ length rest <= 1.
Proof.
  revert pc t; induction inputs as [|i inputs IH]; intros pc t H; cbn [run] in H.
  - injection H as _ <-. exists (pending_message pc). simpl.
    rewrite app_nil_r. split; [reflexivity|]. destruct pc; simpl; lia.
  - destruct (rstep pc i) as [[pc1 acts]|] eqn:E; [|discriminate].
    destruct (run rstep pc1 inputs) as [[pc2 t2]|] eqn:E2; [|discriminate].
    injection H as <- <-.
    assert (Hp : forall exc,
               @reader_except message closed_marker exc = (pc1, acts) ->
               ((exists e, pc1 = RSendExc e) \/ reader_done pc1 = true)
               /\ messages_forwarded acts = []).
    { intros exc Hx. destruct (reader_except_cases message closed_marker exc)
        as [Hc|[o Hc]]; rewrite Hc in Hx; injection Hx as <- <-.
      - split; [left; now exists exc|reflexivity].
      - split; [now right|reflexivity]. }
    unfold messages_forwarded. rewrite keep_app.
    fold (messages_forwarded acts). fold (messages_forwarded t2).
    change (i :: inputs) with ([i] ++ inputs). unfold messages_received.
    rewrite keep_app. fold (messages_received model_validate_json [i]).
    fold (messages_received model_validate_json inputs).
    unfold reader_step in E.
    destruct pc as [|m|exc|o], i as [[payload|]|exc']; try discriminate.
    + unfold messages_received at 1; cbn [keep].
      destruct (model_validate_json payload) as [m|exc].
      * injection E as <- <-. destruct (IH _ _ E2) as (rest & Hr & Hl).
        exists rest. split; [exact Hr|exact Hl].
      * injection E as E. destruct (Hp _ E) as (Hpc & ->).
        destruct (reader_past_loop _ Hpc E2) as (-> & ->). exists [].
      split; [reflexivity|simpl; lia].
    + injection E as E. destruct (Hp _ E) as (Hpc & ->).
      destruct (reader_past_loop _ Hpc E2) as (-> & ->). exists [].
      split; [reflexivity|simpl; lia].
    + injection E as <- <-. destruct (IH _ _ E2) as (rest & Hr & Hl).
      exists rest. split; [|exact Hl]. simpl in *. now rewrite Hr.
    + injection E as E. destruct (Hp _ E) as (Hpc & ->).
      destruct (reader_past_loop _ Hpc E2) as (-> & ->). exists [m].
      split; [reflexivity|simpl; lia].
    + injection E as <- <-.
      destruct (reader_past_loop (pc:=RExit (Returns tt)) _ (or_intror eq_refl) E2)
        as (-> & ->).
      exists [].
      split; [reflexivity|simpl; lia].
    + injection E as <- <-.
      destruct (reader_past_loop (pc:=RExit (Raises exc')) _ (or_intror eq_refl) E2)
        as (-> & ->).
      exists [].
      split; [reflexivity|simpl; lia].
Qed.

(** In every run of [slim_reader] the messages handed to the inbound stream
    are the messages received, in the same order, none twice and none made
    up; at most the message received last has not been handed over. *)
Theorem reader_forwards_what_it_receives (inputs : list (resumption reader_value))
        (pc : reader_pc message) (t : list (action message)) :
  slim_reader model_validate_json closed_marker inputs = Some (pc, t) ->
  exists rest,
    messages_received model_validate_json inputs = messages_forwarded t ++ rest
    /\ length rest <= 1.
Proof. intros H. exact (run_reader_forwards _ _ H). Qed.

(** The handler parks the reader at the forwarding [send] only for an
    [Exception] that is not taken for the end of the session. *)
Lemma reader_except_forwards (exc exc' : exn) (acts : list (action message)) :
  @reader_except message closed_marker exc = (RSendExc exc', acts) ->
  exc' = exc /\ is_Exception exc = true /\ contains closed_marker (str exc) = false
  /\ inbound acts = [].
Proof.
  unfold reader_except, reader_finally.
  destruct (is_Exception exc); [destruct (contains closed_marker (str exc))|];
    try discriminate.
  intros H. injection H as <- <-. repeat split.
Qed.

Lemma reader_except_ends (exc : exn) (o : result unit) (acts : list (action message)) :
  @reader_except message closed_marker exc = (RExit o, acts) ->
  (exists e, o = Raises e) /\ inbound acts = [].
Proof.
  unfold reader_except, reader_finally.
  destruct (is_Exception exc); [destruct (contains closed_marker (str exc))|];
    try discriminate; intros H; injection H as <- <-; split; eauto.
Qed.

Lemma run_reader_over (inputs : list (resumption reader_value)) (o : result unit)
      (pc : reader_pc message) (t : list (action message)) :
  run rstep (RExit o) inputs = Some (pc, t) -> pc = RExit o /\ t = [].
Proof.
  destruct inputs as [|i inputs]; cbn [run].
  - intros H. injection H as <- <-. now split.
  - now rewrite reader_exit_final.
Qed.

Lemma run_reader_forwarding (inputs : list (resumption reader_value)) (exc : exn)
      (pc : reader_pc message) (t : list (action message)) :
  run rstep (RSendExc exc) inputs = Some (pc, t) ->
  inbound t = [] \/ (inbound t = [inr exc] /\ pc = RExit (Returns tt)).
Proof.
  destruct inputs as [|i inputs]; cbn [run].
  - intros H. injection H as <- <-. now left.
  - destruct i as [[p|]|exc']; try discriminate; simpl.
    + destruct (run rstep (RExit (Returns tt)) inputs) as [[pc2 t2]|] eqn:E2;
        [|discriminate].
      intros H. injection H as <- <-. destruct (@run_reader_over _ _ _ _ E2) as (-> & ->).
      now right.
    + destruct (run rstep (RExit (Raises exc')) inputs) as [[pc2 t2]|] eqn:E2;
        [|discriminate].
      intros H. injection H as <- <-. destruct (@run_reader_over _ _ _ _ E2) as (-> & ->).
      now left.
Qed.

Lemma run_reader_error_last (inputs : list (resumption reader_value))
      (pc0 pc : reader_pc message) (t : list (action message)) :
  pc0 = RReceive \/ (exists m, pc0 = RSendMessage m) ->
  run rstep pc0 inputs = Some (pc, t) ->
  inbound t = map inl (messages_forwarded t)
  \/ exists exc,
      inbound t = map inl (messages_forwarded t) ++ [inr exc]
      /\ pc = RExit (Returns tt)
      /\ is_Exception exc = true
      /\ contains closed_marker (str exc) = false.
Proof.
  revert pc0 t; induction inputs as [|i inputs IH]; intros pc0 t Hpc0 H;
    cbn [run] in H.
  - injection H as _ <-. now left.
  - destruct (rstep pc0 i) as [[pc1 acts]|] eqn:E; [|discriminate].
    destruct (run rstep pc1 inputs) as [[pc2 t2]|] eqn:E2; [|discriminate].
    injection H as <- <-.
    assert (Hx : forall exc,
               @reader_except message closed_marker exc = (pc1, acts) ->
               inbound (acts ++ t2) = map inl (messages_forwarded (acts ++ t2))
               \/ exists exc0,
                   inbound (acts ++ t2)
                   = map inl (messages_forwarded (acts ++ t2)) ++ [inr exc0]
                   /\ pc2 = RExit (Returns tt)
                   /\ is_Exception exc0 = true
                   /\ contains closed_marker (str exc0) = false).
    { intros exc Hx. unfold inbound, messages_forwarded. rewrite !keep_app.
      fold (inbound acts) (inbound t2) (messages_forwarded acts)
           (messages_forwarded t2).
      destruct pc1 as [|m|e|o].
      - destruct (reader_except_cases message closed_marker exc) as [Hc|[o Hc]];
          rewrite Hc in Hx; discriminate.
      - destruct (reader_except_cases message closed_marker exc) as [Hc|[o Hc]];
          rewrite Hc in Hx; discriminate.
      - destruct (@reader_except_forwards _ _ _ Hx) as (Heq & He & Hc & Ha).
        subst e.
        destruct (@reader_past_loop inputs (RSendExc exc) pc2 t2
                    (or_introl (ex_intro _ exc eq_refl)) E2) as (_ & Hf).
        assert (Hm : messages_forwarded acts = []).
        { destruct (reader_except_cases message closed_marker exc)
            as [Hc'|[o Hc']]; rewrite Hc' in Hx; inversion Hx; reflexivity. }
        rewrite Ha, Hf, Hm. simpl.
        destruct (@run_reader_forwarding _ _ _ _ E2) as [->|[-> ->]];
          [now left|right; now exists exc].
      - destruct (@reader_except_ends _ _ _ Hx) as (_ & Ha).
        destruct (@run_reader_over _ _ _ _ E2) as (-> & ->).
        assert (Hm : messages_forwarded acts = []).
        { destruct (reader_except_cases message closed_marker exc)
            as [Hc'|[o' Hc']]; rewrite Hc' in Hx; inversion Hx; reflexivity. }
        rewrite Ha, Hm. now left. }
    unfold reader_step in E.
    destruct Hpc0 as [->|[m ->]]; destruct i as [[payload|]|exc']; try discriminate.
    + destruct (model_validate_json payload) as [m|exc].
      * injection E as <- <-. simpl. apply (IH (RSendMessage m)); [right; eauto|exact E2].
      * injection E as E. now apply (Hx exc).
    + injection E as E. now apply (Hx exc').
    + injection E as <- <-.
      destruct (IH RReceive t2 (or_introl eq_refl) E2) as [Hi|(exc & Hi & Hr)].
      * left. cbn. unfold inbound, messages_forwarded in *. cbn [keep app].
        now rewrite Hi.
      * right. exists exc. split; [|exact Hr].
        cbn. unfold inbound, messages_forwarded in *. cbn [keep app].
        now rewrite Hi.
    + injection E as E. now apply (Hx exc').
Qed.

(** On the inbound stream an error value comes at most once and as the last
    item, after which the reader has returned; it is an [Exception] that was
    not taken for the end of the session, never a cancellation. *)
Theorem error_value_ends_inbound_stream (inputs : list (resumption reader_value))
        (pc : reader_pc message) (t : list (action message)) :
  slim_reader model_validate_json closed_marker inputs = Some (pc, t) ->
  inbound t = map inl (messages_forwarded t)
  \/ exists exc,
      inbound t = map inl (messages_forwarded t) ++ [inr exc]
      /\ pc = RExit (Returns tt)
      /\ is_Exception exc = true
      /\ contains closed_marker (str exc) = false.
Proof. apply run_reader_error_last. now left. Qed.

Lemma run_reader_returns (inputs : list (resumption reader_value))
      (pc0 : reader_pc message) (u : unit) (t : list (action message)) :
  reader_done pc0 = false ->
  run rstep pc0 inputs = Some (RExit (Returns u), t) ->
  exists t' exc, t = t' ++ [Forward (inr exc); CloseInbound].
Proof.
  revert pc0 t; induction inputs as [|i inputs IH]; intros pc0 t Hd H;
    cbn [run] in H.
  - injection H as -> _. discriminate.
  - destruct (rstep pc0 i) as [[pc1 acts]|] eqn:E; [|discriminate].
    destruct (run rstep pc1 inputs) as [[pc2 t2]|] eqn:E2; [|discriminate].
    injection H as -> <-.
    destruct (reader_done pc1) eqn:Hd1.
    + destruct pc1 as [| | |o]; try discriminate.
      destruct (@run_reader_over _ _ _ _ E2) as (Ho & ->). injection Ho as <-.
      rewrite app_nil_r. unfold reader_step in E.
      destruct pc0 as [|m|exc|o0], i as [[payload|]|exc']; try discriminate.
      * destruct (model_validate_json payload); [discriminate|].
        injection E as E. destruct (@reader_except_ends _ _ _ E) as ([e He] & _).
        discriminate.
      * injection E as E. destruct (@reader_except_ends _ _ _ E) as ([e He] & _).
        discriminate.
      * injection E as E. destruct (@reader_except_ends _ _ _ E) as ([e He] & _).
        discriminate.
      * simpl in E. injection E as <-. now exists [], exc.
    + destruct (IH _ _ Hd1 E2) as (t' & exc & ->).
      exists (acts ++ t'), exc. now rewrite app_assoc.
Qed.

(** [slim_reader] returns only through its [break]: when it returned, the
    last item it handed to the inbound stream is an error value and its last
    call closed the stream. *)
Theorem reader_returns_only_after_an_error_value
        (inputs : list (resumption reader_value)) (u : unit)
        (t : list (action message)) :
  slim_reader model_validate_json closed_marker inputs = Some (RExit (Returns u), t) ->
  exists t' exc, t = t' ++ [Forward (inr exc); CloseInbound].
Proof. apply run_reader_returns. reflexivity. Qed.

(** One step of the writer: it ends with [CloseOutbound] as its last call,
    or it goes on without closing anything. *)
Lemma writer_step_close (pc pc' : writer_pc) (i : resumption (writer_value message))
      (acts : list (action message)) :
  wstep pc i = Some (pc', acts) ->
  (exists o acts', pc' = WExit o /\ acts = acts' ++ [CloseOutbound]
                   /\ ~ In CloseOutbound acts')
  \/ (writer_done pc' = false /\ ~ In CloseOutbound acts).
Proof.
  unfold writer_step, writer_except, writer_finally. intros H.
  destruct pc, i as [[m| | |]|exc]; try discriminate.
  - destruct (model_dump_json m) as [payload|exc].
    + injection H as <- <-. right. split; [reflexivity|].
      intros [|[]]; discriminate.
    + destruct (is_Exception exc); injection H as <- <-; left.
      * exists (Raises exc), [LogError "Error sending message"].
        repeat split. intros [|[]]; discriminate.
      * exists (Raises exc), []. repeat split. now intros [].
  - injection H as <- <-. left. exists (Returns tt), []. repeat split. now intros [].
  - injection H as <- <-. left. exists (Raises exc), []. repeat split. now intros [].
  - injection H as <- <-. right. split; [reflexivity|]. now intros [].
  - destruct (is_Exception exc); injection H as <- <-; left.
    + exists (Raises exc), [LogError "Error sending message"].
      repeat split. intros [|[]]; discriminate.
    + exists (Raises exc), []. repeat split. now intros [].
  - injection H as <- <-. right. split; [reflexivity|].
    intros [|[]]; discriminate.
  - destruct (is_Exception exc); injection H as <- <-; left.
    + exists (Raises exc), [LogError "Error sending message"].
      repeat split. intros [|[]]; discriminate.
    + exists (Raises exc), []. repeat split. now intros [].
Qed.

(** The last step of a run that ends the writer. *)
Lemma run_writer_last_step (inputs : list (resumption (writer_value message)))
      (pc0 : writer_pc) (o : result unit) (t : list (action message)) :
  writer_done pc0 = false ->
  run wstep pc0 inputs = Some (WExit o, t) ->
  exists pre i pc1 t1 acts,
    inputs = pre ++ [i]
    /\ run wstep pc0 pre = Some (pc1, t1)
    /\ writer_done pc1 = false
    /\ wstep pc1 i = Some (WExit o, acts)
    /\ t = t1 ++ acts.
Proof.
  revert pc0 t; induction inputs as [|i inputs IH]; intros pc0 t Hd H;
    cbn [run] in H.
  - injection H as -> _. discriminate.
  - destruct (wstep pc0 i) as [[pc1 acts]|] eqn:E; [|discriminate].
    destruct (run wstep pc1 inputs) as [[pc2 t2]|] eqn:E2; [|discriminate].
    injection H as -> <-.
    destruct (writer_done pc1) eqn:Hd1.
    + destruct pc1 as [| | |o1]; try discriminate.
      destruct inputs as [|i' inputs].
      * cbn [run] in E2. injection E2 as <- <-.
        exists [], i, pc0, [], acts. rewrite app_nil_r. repeat split; assumption.
      * cbn [run] in E2. now rewrite writer_exit_final in E2.
    + destruct (IH _ _ Hd1 E2) as (pre & j & pc3 & t3 & acts3 & -> & R & D & S & ->).
      exists (i :: pre), j, pc3, (acts ++ t3), acts3.
      split; [reflexivity|]. split; [cbn [run]; now rewrite E, R|].
      split; [exact D|]. split; [exact S|]. now rewrite app_assoc.
Qed.

(** A writer that is still running has not closed the outbound stream. *)
Lemma run_writer_open (pre : list (resumption (writer_value message)))
      (pc0 pc1 : writer_pc) (t1 : list (action message)) :
  run wstep pc0 pre = Some (pc1, t1) ->
  writer_done pc1 = false ->
  ~ In CloseOutbound t1.
Proof.
  revert pc0 t1; induction pre as [|j pre IH]; intros pc0 t1 R Hd Hin;
    cbn [run] in R.
  - injection R as _ <-. destruct Hin.
  - destruct (wstep pc0 j) as [[pc2 acts2]|] eqn:E; [|discriminate].
    destruct (run wstep pc2 pre) as [[pc3 t3]|] eqn:E3; [|discriminate].
    injection R as -> <-. apply in_app_or in Hin as [Hin|Hin].
    + destruct (@writer_step_close _ _ _ _ E) as [(o2 & acts2' & -> & _ & _)|[_ Hn2]];
        [|now apply Hn2].
      destruct pre as [|j' pre]; cbn [run] in E3.
      * injection E3 as <- _. discriminate.
      * now rewrite writer_exit_final in E3.
    + now apply (IH pc2 t3).
Qed.

(** Whenever [slim_writer] is over, whatever ended it, its last call was
    [write_stream_reader.aclose()], made once. *)
Theorem writer_exit_closes_outbound (inputs : list (resumption (writer_value message)))
        (o : result unit) (t : list (action message)) :
  slim_writer model_dump_json inputs = Some (WExit o, t) ->
  exists t', t = t' ++ [CloseOutbound] /\ ~ In CloseOutbound t'.
Proof.
  intros H.
  destruct (@run_writer_last_step inputs WNext o t eq_refl H)
    as (pre & i & pc1 & t1 & acts & -> & R & D & S & ->).
  destruct (@writer_step_close _ _ _ _ S) as [(o' & acts' & _ & -> & Hn)|[Hd _]];
    [|discriminate].
  exists (t1 ++ acts'). split; [now rewrite app_assoc|].
  rewrite in_app_iff. intros [Hin|Hin]; [|now apply Hn].
  exact (@run_writer_open pre WNext pc1 t1 R D Hin).
Qed.

(** [slim_writer] swallows no error: it returns only at the end of the
    outbound stream, and when it raises, the exception is the one thrown at
    its pending [await] or raised by the serialization of the message it
    took. *)
Theorem writer_ends_with_what_was_raised
        (inputs : list (resumption (writer_value message)))
        (o : result unit) (t : list (action message)) :
  slim_writer model_dump_json inputs = Some (WExit o, t) ->
  exists pre i,
    inputs = pre ++ [i]
    /\ match o with
       | Returns _ => i = Value Exhausted
       | Raises exc =>
           i = Throw exc
           \/ exists m, i = Value (Taken m) /\ model_dump_json m = Raises exc
       end.
Proof.
  intros H.
  destruct (@run_writer_last_step inputs WNext o t eq_refl H)
    as (pre & i & pc1 & t1 & acts & -> & _ & _ & S & _).
  exists pre, i. split; [reflexivity|].
  unfold writer_step, writer_except, writer_finally in S.
  destruct pc1, i as [[m| | |]|exc]; try discriminate.
  - destruct (model_dump_json m) as [payload|exc] eqn:Em; [discriminate|].
    destruct (is_Exception exc); injection S as <- _; right; now exists m.
  - now injection S as <- _.
  - injection S as <- _. now left.
  - destruct (is_Exception exc); injection S as <- _; now left.
  - destruct (is_Exception exc); injection S as <- _; now left.
Qed.

End PumpRuns.


(** ** The bridge *)

(** What [except* TerminateTaskGroup] lets through holds no
    [TerminateTaskGroup], at any depth. *)
Lemma unhandled_holds_no_terminate :
  forall exc rest, unhandled exc = Some rest -> holds_terminate rest = false.
Proof.
  fix IH 1. intros [msg| | |msg excs] rest H; cbn [unhandled] in H.
  - now injection H as <-.
  - discriminate.
  - now injection H as <-.
  - assert (L : existsb holds_terminate (keep unhandled excs) = false).
    { clear H. induction excs as [|x excs IHl]; [reflexivity|]. cbn [keep].
      destruct (unhandled x) as [r|] eqn:E; [|exact IHl].
      cbn [existsb]. now rewrite (IH x r E), IHl. }
    destruct (keep unhandled excs) as [|r rs]; [discriminate|].
    injection H as <-. exact L.
Qed.

Section BridgeRuns.

Variable message : Type.
Variable model_validate_json : bytes -> result message.
Variable model_dump_json : message -> result bytes.
Variable closed_marker : string.

Local Abbreviation rstep := (reader_step model_validate_json closed_marker).
Local Abbreviation wstep := (writer_step model_dump_json).
Local Abbreviation bstep :=
  (bridge_step model_validate_json model_dump_json closed_marker).
Local Abbreviation brun :=
  (bridge_run model_validate_json model_dump_json closed_marker).

(** How one event changes the pumps, the calls and the scope. *)
Lemma bridge_step_fields (b b' : bridge message) (ev : bridge_event message) :
  bstep b ev = Some b' ->
  match ev with
  | ReaderResumes i =>
      exists pc acts,
        rstep (reader b) (delivered (reader_must_cancel b) i) = Some (pc, acts)
        /\ reader b' = pc /\ writer b' = writer b
        /\ trace b' = trace b ++ acts /\ scope b' = scope b /\ force b' = force b
  | WriterResumes j =>
      exists pc acts,
        wstep (writer b) (delivered (writer_must_cancel b) j) = Some (pc, acts)
        /\ reader b' = reader b /\ writer b' = pc
        /\ trace b' = trace b ++ acts /\ scope b' = scope b /\ force b' = force b
  | ForceRuns =>
      reader b' = reader b /\ writer b' = writer b /\ trace b' = trace b
      /\ scope b' = scope b /\ force b = Some FCreated /\ force_done (force b') = true
  | BodyReturns =>
      reader b' = reader b /\ writer b' = writer b /\ trace b' = trace b
      /\ scope b = InBody /\ scope b' = Joining None /\ aborting b = false
      /\ errors b' = errors b
  | BodyRaises exc =>
      reader b' = reader b /\ writer b' = writer b /\ trace b' = trace b
      /\ scope b = InBody /\ scope b' = Joining (Some exc) /\ force b' = force b
      /\ errors b' = errors b
  | TasksJoined =>
      reader b' = reader b /\ writer b' = writer b /\ trace b' = trace b
      /\ force b' = force b
      /\ reader_done (reader b) = true /\ writer_done (writer b) = true
      /\ force_done (force b) = true
      /\ exists body_exc,
          scope b = Joining body_exc /\ scope b' = Left (leave body_exc (errors b))
  end.
Proof.
  destruct ev as [i|j| | |exc| ]; intros H.
  - destruct (@reader_resumes_inv message model_validate_json model_dump_json
                closed_marker b b' i H) as (pc & acts & E & ->).
    exists pc, acts. split; [exact E|].
    destruct pc as [|m|e|o]; try (repeat split; reflexivity).
    destruct (on_task_done_frame o (set_reader (RExit o) acts b))
      as (-> & -> & -> & -> & -> & _). repeat split.
  - destruct (@writer_resumes_inv message model_validate_json model_dump_json
                closed_marker b b' j H) as (pc & acts & E & ->).
    exists pc, acts. split; [exact E|].
    destruct pc as [|p| |o]; try (repeat split; reflexivity).
    destruct (on_task_done_frame o (set_writer (WExit o) acts b))
      as (-> & -> & -> & -> & -> & _). repeat split.
  - unfold bridge_step in H. destruct (force b) as [[|o0]|] eqn:Ef; try discriminate.
    destruct (force_termination _ _) as [[[|o] acts]|]; try discriminate.
    injection H as <-.
    destruct (on_task_done_frame o (set_force (FExit o) b))
      as (-> & -> & -> & -> & -> & _). repeat split.
  - unfold bridge_step in H. destruct (scope b) eqn:Es; try discriminate.
    destruct (aborting b) eqn:Ea; [discriminate|]. injection H as <-.
    repeat split.
  - unfold bridge_step in H. destruct (scope b) eqn:Es; try discriminate.
    injection H as <-. destruct (aborting b); repeat split.
  - unfold bridge_step in H. destruct (scope b) as [|body_exc|o] eqn:Es;
      try discriminate.
    destruct (reader_done (reader b)) eqn:Dr; [|discriminate].
    destruct (writer_done (writer b)) eqn:Dw; [|discriminate].
    destruct (force_done (force b)) eqn:Df; [|discriminate].
    injection H as <-. repeat split. now exists body_exc.
Qed.

Lemma bridge_step_scope (b b' : bridge message) (ev : bridge_event message) :
  bstep b ev = Some b' ->
  scope b' = scope b
  \/ (scope b = InBody /\ exists body_exc, scope b' = Joining body_exc)
  \/ (exists body_exc,
        scope b = Joining body_exc /\ scope b' = Left (leave body_exc (errors b))).
Proof.
  intros H. pose proof (@bridge_step_fields b b' ev H) as F.
  destruct ev as [i|j| | |exc| ].
  - destruct F as (pc & acts & _ & _ & _ & _ & Hs & _). now left.
  - destruct F as (pc & acts & _ & _ & _ & _ & Hs & _). now left.
  - destruct F as (_ & _ & _ & Hs & _). now left.
  - destruct F as (_ & _ & _ & Hb & Hs & _). right; left. split; eauto.
  - destruct F as (_ & _ & _ & Hb & Hs & _). right; left. split; eauto.
  - destruct F as (_ & _ & _ & _ & _ & _ & _ & be & Hb & Hs). right; right. eauto.
Qed.

(** A property kept by every step holds along every run. *)
Lemma bridge_run_invariant (Inv : bridge message -> Prop) :
  (forall b ev b', Inv b -> bstep b ev = Some b' -> Inv b') ->
  forall evs b b', Inv b -> brun b evs = Some b' -> Inv b'.
Proof.
  intros Hstep. induction evs as [|ev evs IH]; intros b b' Hi H;
    cbn [bridge_run] in H.
  - now injection H as <-.
  - destruct (bstep b ev) as [b1|] eqn:E; [|discriminate].
    apply (IH b1); [|exact H]. exact (Hstep b ev b1 Hi E).
Qed.

(** [TerminateTaskGroup] never reaches the caller of [create_mcp_streams]:
    the exception the bridge is left with, if any, holds none. *)
Theorem terminate_never_leaves_the_bridge (evs : list (bridge_event message))
        (b : bridge message) (exc : exn) :
  brun create_mcp_streams evs = Some b ->
  scope b = Left (Raises exc) ->
  holds_terminate exc = false.
Proof.
  intros H Hs.
  assert (Hi : forall o, scope b = Left o -> exists body_exc errs, o = leave body_exc errs).
  { apply (@bridge_run_invariant
             (fun b0 => forall o, scope b0 = Left o ->
                                  exists body_exc errs, o = leave body_exc errs))
      with (evs := evs) (b := create_mcp_streams); [|discriminate|exact H].
    intros b0 ev b1 Hi0 E o Ho.
    destruct (@bridge_step_scope b0 b1 ev E) as [Hsame|[[_ [be Hj]]|(be & _ & Hl)]].
    - apply Hi0. congruence.
    - congruence.
    - rewrite Hl in Ho. injection Ho as <-. eauto. }
  destruct (Hi _ Hs) as (body_exc & errs & Hl). unfold leave in Hl.
  destruct (group_raises body_exc errs) as [g|]; [|discriminate].
  destruct (unhandled g) as [r|] eqn:Eu; [|discriminate].
  injection Hl as ->. exact (unhandled_holds_no_terminate _ Eu).
Qed.




(** A cancellation of the body, no pump having failed, cancels both pumps
    and goes on to the caller as [CancelledError]: [except*] lets it through
    and the bridge is left as soon as each pump was resumed once. *)
Theorem body_cancellation_goes_through (b : bridge message)
        (i : resumption reader_value) (j : resumption (writer_value message)) :
  scope b = InBody ->
  aborting b = false ->
  errors b = [] ->
  force b = None ->
  exists b1 b2,
    bstep b (BodyRaises CancelledError) = Some b1
    /\ shutting_down b1 = true
    /\ brun b1 (resume_pumps b i j ++ [TasksJoined]) = Some b2
    /\ scope b2 = Left (Raises CancelledError)
    /\ forall evs b3 o,
         brun b1 evs = Some b3 -> scope b3 = Left o -> o = Raises CancelledError.
Proof.
  intros Hs Ha He Hf.
  set (b1 := set_scope (Joining (Some CancelledError)) (abort b)).
  assert (H1 : bstep b (BodyRaises CancelledError) = Some b1)
    by (unfold bridge_step; now rewrite Hs, Ha).
  assert (Hsd : shutting_down b1 = true).
  { unfold shutting_down; simpl. rewrite Hf.
    destruct (reader_done (reader b)), (writer_done (writer b)); reflexivity. }
  assert (Hlast : forall evs b3 o,
             brun b1 evs = Some b3 -> scope b3 = Left o -> o = Raises CancelledError).
  { intros evs b3 o Hrun Ho.
    assert (Hj : shutting_down b3 = true /\ errors b3 = []
                 /\ (scope b3 = Joining (Some CancelledError)
                     \/ scope b3 = Left (Raises CancelledError))).
    { apply (@bridge_run_invariant
               (fun b0 => shutting_down b0 = true /\ errors b0 = []
                          /\ (scope b0 = Joining (Some CancelledError)
                              \/ scope b0 = Left (Raises CancelledError))))
        with (evs := evs) (b := b1);
        [|split; [exact Hsd|split; [exact He|now left]]|exact Hrun].
      intros b4 ev b5 (Hsd4 & He4 & Hsc) E.
      destruct (@shutting_down_step message model_validate_json model_dump_json
                  closed_marker b4 b5 ev Hsd4 E) as (Hsd5 & He5 & _).
      split; [exact Hsd5|]. split; [congruence|].
      destruct (@bridge_step_scope b4 b5 ev E) as [Hsame|[[Hb _]|(be & Hb & Hl)]].
      - now rewrite Hsame.
      - destruct Hsc; congruence.
      - destruct Hsc as [Hj|Hj]; [|congruence].
        right. rewrite Hl, He4. rewrite Hb in Hj. injection Hj as ->. reflexivity. }
    destruct Hj as (_ & _ & [Hj|Hj]); congruence. }
  unfold resume_pumps.
  destruct (reader_done (reader b)) eqn:Dr, (writer_done (writer b)) eqn:Dw.
  - eexists b1, _. split; [exact H1|]. split; [exact Hsd|].
    split; [|split; [|exact Hlast]].
    + cbn [app bridge_run]. unfold bridge_step; simpl. rewrite Dr, Dw, Hf. reflexivity.
    + simpl. now rewrite He.
  - eexists b1, _. split; [exact H1|]. split; [exact Hsd|].
    split; [|split; [|exact Hlast]].
    + cbn [app bridge_run].
      rewrite (@writer_can_be_cancelled message model_validate_json model_dump_json
                 closed_marker b1 j) by (simpl; now rewrite ?Dw).
      unfold bridge_step; simpl. rewrite Dr, Hf. reflexivity.
    + simpl. now rewrite He.
  - eexists b1, _. split; [exact H1|]. split; [exact Hsd|].
    split; [|split; [|exact Hlast]].
    + cbn [app bridge_run].
      rewrite (@reader_can_be_cancelled message model_validate_json model_dump_json
                 closed_marker b1 i) by (simpl; now rewrite ?Dr).
      unfold bridge_step; simpl. rewrite Dw, Hf. reflexivity.
    + simpl. now rewrite He.
  - eexists b1, _. split; [exact H1|]. split; [exact Hsd|].
    split; [|split; [|exact Hlast]].
    + cbn [app bridge_run].
      rewrite (@reader_can_be_cancelled message model_validate_json model_dump_json
                 closed_marker b1 i) by (simpl; now rewrite ?Dr).
      rewrite (@writer_can_be_cancelled message model_validate_json model_dump_json
                 closed_marker _ j) by (simpl; now rewrite ?Dw).
      unfold bridge_step; simpl. rewrite Hf. reflexivity.
    + simpl. now rewrite He.
Qed.

End BridgeRuns.


(** ** [create_local_app], all paths *)

(** [create_local_app] returns an app with a connection id exactly when
    [connect_async] returned that id and the app was subscribed on it; it
    returns an app without a connection id exactly when no configuration was
    given or [connect_async] raised an [Exception] that says the client is
    connected already, and then nothing is subscribed. *)
Theorem create_local_app_returns {name client_config app : Type}
        (svc : helpers.service name client_config app)
        (local_name : name) (slim_client_config : option client_config)
        (enable_opentelemetry : bool) (shared_secret : string)
        (local_app : app) (connection_id : option nat) :
  helpers.create_local_app (Returns svc) local_name slim_client_config
                           enable_opentelemetry shared_secret
  = Returns (local_app, connection_id)
  <->
  helpers.create_app_with_secret svc local_name shared_secret = Returns local_app
  /\ match slim_client_config, connection_id with
     | None, None => True
     | None, Some _ => False
     | Some cfg, Some id =>
         helpers.connect_async svc cfg = Returns id
         /\ exists u, helpers.subscribe_async svc local_app local_name id = Returns u
     | Some cfg, None =>
         exists e, helpers.connect_async svc cfg = Raises e
                   /\ is_Exception e = true
                   /\ contains "client already connected" (str e) = true
     end.
Proof.
  unfold helpers.create_local_app, helpers.setup_service, helpers.connect.
  cbn [helpers.bind].
  destruct slim_client_config as [cfg|].
  - destruct (helpers.connect_async svc cfg) as [id|e] eqn:Ec; cbn [helpers.bind].
    + destruct (helpers.create_app_with_secret svc local_name shared_secret)
        as [a|e] eqn:Ea; cbn [helpers.bind].
      * destruct (helpers.subscribe_async svc a local_name id) as [u|e] eqn:Es;
          cbn [helpers.bind]; split.
        -- intros H. injection H as <- <-. split; [reflexivity|].
           split; [reflexivity|]. now exists u.
        -- intros [Ha Hc]. injection Ha as <-. destruct connection_id as [id'|].
           ++ destruct Hc as [Hc _]. now injection Hc as <-.
           ++ destruct Hc as (e & He & _). discriminate.
        -- discriminate.
        -- intros [Ha Hc]. injection Ha as <-. destruct connection_id as [id'|].
           ++ destruct Hc as [Hc [u Hu]]. injection Hc as <-. congruence.
           ++ destruct Hc as (e' & He' & _). discriminate.
      * split; [discriminate|]. intros [Ha _]. discriminate.
    + destruct (is_Exception e) eqn:He;
        [destruct (contains "client already connected" (str e)) eqn:Hc|];
        cbn [negb helpers.bind].
      * destruct (helpers.create_app_with_secret svc local_name shared_secret)
          as [a|e'] eqn:Ea; cbn [helpers.bind]; split.
        -- intros H. injection H as <- <-. split; [reflexivity|]. now exists e.
        -- intros [Ha Hx]. injection Ha as <-. destruct connection_id as [id'|].
           ++ destruct Hx as [Hx _]. discriminate.
           ++ reflexivity.
        -- discriminate.
        -- intros [Ha _]. discriminate.
      * split; [discriminate|]. intros [_ Hx]. destruct connection_id as [id'|].
        -- destruct Hx as [Hx _]. discriminate.
        -- destruct Hx as (e' & He' & _ & Hc'). injection He' as <-. congruence.
      * split; [discriminate|]. intros [_ Hx]. destruct connection_id as [id'|].
        -- destruct Hx as [Hx _]. discriminate.
        -- destruct Hx as (e' & He' & He'' & _). injection He' as <-. congruence.
  - destruct (helpers.create_app_with_secret svc local_name shared_secret)
      as [a|e] eqn:Ea; cbn [helpers.bind]; split.
    + intros H. injection H as <- <-. now split.
    + intros [Ha Hc]. injection Ha as <-. now destruct connection_id.
    + discriminate.
    + intros [Ha _]. discriminate.
Qed.



(** ** [create_slim_session], all runs *)

(** In every run of [create_slim_session] the calls are an initial part of:
    the creation is awaited, the session is yielded, its deletion is
    requested, the deletion is awaited.  So [delete_session_async] is called
    at most once, for the session that was yielded and after it was yielded;
    a session whose creation or establishment raised is neither yielded nor
    deleted. *)
Theorem session_calls_in_order (inputs : list (resumption mcp_client.session_value))
        (pc : mcp_client.session_pc) (t : list mcp_client.session_action) :
  mcp_client.create_slim_session inputs = Some (pc, t) ->
  t = []
  \/ exists s,
      t = [mcp_client.AwaitedEstablished s; mcp_client.Yield s]
      \/ t = [mcp_client.AwaitedEstablished s; mcp_client.Yield s;
              mcp_client.DeleteSession s]
      \/ t = [mcp_client.AwaitedEstablished s; mcp_client.Yield s;
              mcp_client.DeleteSession s; mcp_client.AwaitedDeleted s].
Proof.
  intros H. unfold mcp_client.create_slim_session in H.
  session_runs H inputs; injection H as <- <-;
    solve [ now left
          | right; eexists; left; reflexivity
          | right; eexists; right; left; reflexivity
          | right; eexists; right; right; reflexivity ].
Qed.

(** [create_slim_session] is left without an exception only when the
    session was created and established, the body ended normally and the
    deletion completed.  When it is left with an exception, either that
    exception was raised by the call it was waiting for last, or it is the
    exception of the body and the deletion completed: a deletion that fails
    hides the exception of the body. *)
Theorem session_exit_outcome (inputs : list (resumption mcp_client.session_value))
        (o : result unit) (t : list mcp_client.session_action) :
  mcp_client.create_slim_session inputs = Some (mcp_client.SExit o, t) ->
  match o with
  | Returns _ =>
      exists s,
        inputs = [Value (mcp_client.Created s); Value mcp_client.Established;
                  Value mcp_client.BodyEnds;
                  Value mcp_client.DeleteCompletion; Value mcp_client.Deleted]
  | Raises exc =>
      (exists pre, inputs = pre ++ [Throw exc])
      \/ exists s,
          inputs = [Value (mcp_client.Created s); Value mcp_client.Established;
                    Throw exc;
                    Value mcp_client.DeleteCompletion; Value mcp_client.Deleted]
  end.
Proof.
  intros H. unfold mcp_client.create_slim_session in H.
  session_runs H inputs; injection H as <- _;
    try solve [ eexists; reflexivity
              | right; eexists; reflexivity
              | left;
                match goal with
                | |- exists pre, ?l = pre ++ _ => exists (removelast l); reflexivity
                end ].
Qed.

(** The exception of the body is lost when the deletion of the session
    fails. *)
Example failed_deletion_hides_body_exception :
  mcp_client.create_slim_session
    [Value (mcp_client.Created {| session_id := 7 |}); Value mcp_client.Established;
     Throw (Error "tool call failed"); Throw (Error "delete failed")]
  = Some (mcp_client.SExit (Raises (Error "delete failed")),
          [mcp_client.AwaitedEstablished {| session_id := 7 |};
           mcp_client.Yield {| session_id := 7 |};
           mcp_client.DeleteSession {| session_id := 7 |}]).
Proof. reflexivity. Qed.


(** ** [create_client_streams] *)

Section ClientStreamsFacts.

Variable message : Type.
Variable model_validate_json : bytes -> result message.
Variable model_dump_json : message -> result bytes.

Local Abbreviation cstep := (client_step model_validate_json model_dump_json).
Local Abbreviation crun := (client_run model_validate_json model_dump_json).
Local Abbreviation cinv := (client_invariant model_validate_json model_dump_json).

Lemma bridge_run_snoc (closed_marker : string) (evs : list (bridge_event message))
      (ev : bridge_event message) (b0 b b' : bridge message) :
  bridge_run model_validate_json model_dump_json closed_marker b0 evs = Some b ->
  bridge_step model_validate_json model_dump_json closed_marker b ev = Some b' ->
  bridge_run model_validate_json model_dump_json closed_marker b0 (evs ++ [ev])
  = Some b'.
Proof.
  intros R S. rewrite bridge_run_app, R. cbn [bridge_run]. now rewrite S.
Qed.

Lemma client_step_invariant (c c' : client_streams message) (ev : client_event message) :
  cinv c -> cstep c ev = Some c' -> cinv c'.
Proof.
  unfold client_invariant, client_step, resume_session.
  destruct c as [pc calls br]; cbn [cs_session cs_calls cs_bridge].
  destruct pc as [|s|s|s be|s be|r]; intros Hi H.
  - destruct Hi as [-> ->]. destruct ev as [[[s| | | |]|exc]|bev]; try discriminate;
      cbn in H; injection H as <-; cbn; auto.
  - destruct Hi as [-> ->]. destruct ev as [[[s'| | | |]|exc]|bev]; try discriminate;
      cbn in H; injection H as <-; cbn; auto.
    split; [reflexivity|]. exists create_mcp_streams, []. repeat split. discriminate.
  - destruct Hi as (-> & b & evs & -> & R & Hn).
    destruct ev as [i|bev]; [discriminate|].
    destruct (mcp_client.bridge_step model_validate_json model_dump_json b bev)
      as [b'|] eqn:S; [|discriminate].
    pose proof (@bridge_run_snoc mcp_client.closed_marker evs bev
                  create_mcp_streams b b' R S) as R'.
    destruct (scope b') as [|body_exc|o] eqn:Es.
    + injection H as <-. cbn. split; [reflexivity|].
      exists b', (evs ++ [bev]). repeat split; [exact R'|]. congruence.
    + injection H as <-. cbn. split; [reflexivity|].
      exists b', (evs ++ [bev]). repeat split; [exact R'|]. congruence.
    + destruct o as [[]|exc]; cbn in H; injection H as <-; cbn;
        (split; [reflexivity|]); exists b', (evs ++ [bev]); repeat split;
        assumption.
  - destruct Hi as (-> & b & evs & -> & R & Hs).
    destruct ev as [[[s'| | | |]|exc]|bev]; try discriminate;
      cbn in H; injection H as <-; cbn.
    + split; [reflexivity|]. now exists b, evs.
    + right. exists s, b, evs, (mcp_client.session_exit be).
      repeat split; auto.
  - destruct Hi as (-> & b & evs & -> & R & Hs).
    destruct ev as [[[s'| | | |]|exc]|bev]; try discriminate;
      cbn in H; injection H as <-; cbn.
    + right. exists s, b, evs, (mcp_client.session_exit be).
      repeat split; auto.
    + right. exists s, b, evs, (mcp_client.session_exit be).
      repeat split; auto.
  - destruct ev as [[[s'| | | |]|exc]|bev]; discriminate.
Qed.

Lemma client_run_invariant (evs : list (client_event message))
      (c : client_streams message) :
  crun create_client_streams evs = Some c -> cinv c.
Proof.
  assert (G : forall c0, cinv c0 -> crun c0 evs = Some c -> cinv c).
  { induction evs as [|ev evs IH]; intros c0 Hi H; cbn [client_run] in H.
    - now injection H as <-.
    - destruct (cstep c0 ev) as [c1|] eqn:E; [|discriminate].
      apply (IH c1); [|exact H]. exact (@client_step_invariant c0 c1 ev Hi E). }
  apply G. now split.
Qed.


(** As soon as the bridge is left, whatever it raised, the deletion of the
    session is requested; and once the deletion has completed,
    [create_client_streams] is left with the outcome of the bridge: an error
    of the bridge reaches the caller after the session is deleted. *)
Theorem client_streams_delete_session_and_keep_outcome
        (evs : list (client_event message)) (c : client_streams message)
        (b : bridge message) (o : result unit) :
  crun create_client_streams evs = Some c ->
  cs_bridge c = Some b ->
  scope b = Left o ->
  (exists s, In (mcp_client.DeleteSession s) (cs_calls c))
  /\ (forall r s, cs_session c = mcp_client.SExit r ->
                  In (mcp_client.AwaitedDeleted s) (cs_calls c) -> r = o).
Proof.
  intros H Hb Hs. pose proof (@client_run_invariant evs c H) as Hi.
  unfold client_invariant in Hi.
  destruct (cs_session c) as [|s'|s'|s' be|s' be|r].
  - destruct Hi as [Hn _]. congruence.
  - destruct Hi as [Hn _]. congruence.
  - destruct Hi as (_ & b0 & evs0 & Hb0 & _ & Hn). rewrite Hb in Hb0.
    injection Hb0 as <-. now destruct (Hn o).
  - destruct Hi as (Hc & _). rewrite Hc. split; [|discriminate].
    exists s'. simpl. auto.
  - destruct Hi as (Hc & _). rewrite Hc. split; [|discriminate].
    exists s'. simpl. auto.
  - destruct Hi as [[Hn _]|(s' & b0 & evs0 & o0 & Hb0 & _ & Hs0 & Hc)]; [congruence|].
    rewrite Hb in Hb0. injection Hb0 as <-. rewrite Hs in Hs0. injection Hs0 as <-.
    destruct Hc as [Hc|[Hc Hr]]; rewrite Hc.
    + split; [exists s'; simpl; auto|].
      intros r0 s0 _ [Hin|[Hin|[Hin|[]]]]; discriminate.
    + split; [exists s'; simpl; auto|].
      intros r0 s0 Hr0 _. injection Hr0 as <-. exact Hr.
Qed.

End ClientStreamsFacts.


(** ** [run_mcp_server], all runs *)

Lemma last_cons_default {A : Type} (x d : A) (l : list A) :
  last (x :: l) d = last l x.
Proof.
  revert x d; induction l as [|y l IH]; intros x d; [reflexivity|].
  change (last (x :: y :: l) d) with (last (y :: l) d).
  now rewrite (IH y d), (IH y x).
Qed.

Lemma set_task_length (k : nat) (o : result unit) (ts : list (option (result unit))) :
  length (mcp_server.set_task k o ts) = length ts.
Proof.
  revert ts; induction k as [|k IH]; intros [|t ts]; simpl; auto.
Qed.

Lemma server_run_tasks (evs : list mcp_server.server_event)
      (st0 st : mcp_server.server) :
  mcp_server.server_run st0 evs = Some st ->
  length (mcp_server.tasks st)
  = length (mcp_server.tasks st0) + length (accepted evs)
  /\ mcp_server.session_var st
     = last (map Some (accepted evs)) (mcp_server.session_var st0).
Proof.
  revert st0; induction evs as [|ev evs IH]; intros st0 H;
    cbn [mcp_server.server_run] in H.
  - injection H as <-. simpl. split; [lia|reflexivity].
  - destruct (mcp_server.server_step st0 ev) as [st1|] eqn:E; [|discriminate].
    destruct (IH _ H) as [Hl Hv]. unfold mcp_server.server_step in E.
    destruct ev as [[s|e]|k o].
    + destruct (mcp_server.loop st0); [|discriminate]. injection E as <-.
      simpl in *. rewrite length_app in Hl. simpl in Hl. split; [lia|].
      rewrite Hv. symmetry. apply last_cons_default.
    + destruct (mcp_server.loop st0); [|discriminate].
      destruct (is_Exception e); injection E as <-; simpl in *; auto.
    + destruct (nth_error _ k) as [[|]|]; try discriminate.
      destruct (mcp_server.handle_session _ o) as [o' texts].
      injection E as <-. simpl in *. rewrite set_task_length in Hl. auto.
Qed.

(** [run_mcp_server] makes one task for each session it accepted and none
    for an accept that failed. *)
Theorem one_task_per_accepted_session (evs : list mcp_server.server_event)
        (st : mcp_server.server) :
  mcp_server.server_run mcp_server.run_mcp_server evs = Some st ->
  length (mcp_server.tasks st) = length (accepted evs).
Proof. intros H. now destruct (server_run_tasks _ _ H) as [-> _]. Qed.



(** ** The further properties at concrete runs *)


Lemma reader_forwards_what_it_receives_witness :
  exists rest,
    messages_received Sample.model_validate_json
      [Value (Received "{'id':1}"); Value Delivered;
       Value (Received "oops"); Value Delivered]
    = messages_forwarded
        [Forward (inl "{'id':1}"); LogError "Error receiving message";
         Forward (inr (Error "Invalid JSON: expected value at line 1 column 1"));
         @CloseInbound Sample.message] ++ rest
    /\ length rest <= 1.
Proof.
  apply (@reader_forwards_what_it_receives Sample.message
           Sample.model_validate_json mcp_client.closed_marker
           [Value (Received "{'id':1}"); Value Delivered;
            Value (Received "oops"); Value Delivered]
           (RExit (Returns tt))).
  reflexivity.
Defined.

Lemma error_value_ends_inbound_stream_witness :
  inbound [Forward (inl "{'id':1}"); LogError "Error receiving message";
           Forward (inr (Error "connection reset")); @CloseInbound Sample.message]
  = map inl (messages_forwarded
               [Forward (inl "{'id':1}"); LogError "Error receiving message";
                Forward (inr (Error "connection reset"));
                @CloseInbound Sample.message])
  \/ exists exc,
      inbound [Forward (inl "{'id':1}"); LogError "Error receiving message";
               Forward (inr (Error "connection reset")); @CloseInbound Sample.message]
      = map inl (messages_forwarded
                   [Forward (inl "{'id':1}"); LogError "Error receiving message";
                    Forward (inr (Error "connection reset"));
                    @CloseInbound Sample.message]) ++ [inr exc]
      /\ @RExit Sample.message (Returns tt) = RExit (Returns tt)
      /\ is_Exception exc = true
      /\ contains mcp_client.closed_marker (str exc) = false.
Proof.
  apply (@error_value_ends_inbound_stream Sample.message Sample.model_validate_json
           mcp_client.closed_marker
           [Value (Received "{'id':1}"); Value Delivered;
            Throw (Error "connection reset"); Value Delivered]).
  reflexivity.
Defined.

Lemma reader_returns_only_after_an_error_value_witness :
  exists t' exc,
    [Forward (inl "{'id':1}"); LogError "Error receiving message";
     Forward (inr (Error "connection reset")); @CloseInbound Sample.message]
    = t' ++ [Forward (inr exc); CloseInbound].
Proof.
  apply (@reader_returns_only_after_an_error_value Sample.message
           Sample.model_validate_json mcp_client.closed_marker
           [Value (Received "{'id':1}"); Value Delivered;
            Throw (Error "connection reset"); Value Delivered] tt).
  reflexivity.
Defined.

Lemma writer_exit_closes_outbound_witness :
  exists t',
    [Publish Sample.ping; Acked; @CloseOutbound Sample.message]
    = t' ++ [CloseOutbound] /\ ~ In CloseOutbound t'.
Proof.
  apply (@writer_exit_closes_outbound Sample.message Sample.model_dump_json
           (sent_and_acked Sample.ping ++ [Value Exhausted]) (Returns tt)).
  reflexivity.
Defined.

Lemma writer_ends_with_what_was_raised_witness :
  exists pre i,
    [Value (Taken Sample.ping); Throw (Error "publish failed")] = pre ++ [i]
    /\ (i = Throw (Error "publish failed")
        \/ exists m, i = Value (Taken m)
                     /\ Sample.model_dump_json m = Raises (Error "publish failed")).
Proof.
  apply (@writer_ends_with_what_was_raised Sample.message Sample.model_dump_json
           [Value (Taken Sample.ping); Throw (Error "publish failed")]
           (Raises (Error "publish failed"))
           [Publish Sample.ping; LogError "Error sending message"; CloseOutbound]).
  reflexivity.
Defined.

Lemma terminate_never_leaves_the_bridge_witness :
  holds_terminate (ExceptionGroup "unhandled errors in a TaskGroup"
                                  [Error "publish failed"]) = false.
Proof.
  apply (@terminate_never_leaves_the_bridge Sample.message Sample.model_validate_json
           Sample.model_dump_json mcp_client.closed_marker Sample.failed_send
           (Sample.bridge_after Sample.failed_send));
    reflexivity.
Defined.



Lemma body_cancellation_goes_through_witness :
  exists b1 b2,
    mcp_client.bridge_step Sample.model_validate_json Sample.model_dump_json
      Sample.opened (BodyRaises CancelledError) = Some b1
    /\ shutting_down b1 = true
    /\ mcp_client.bridge_run Sample.model_validate_json Sample.model_dump_json b1
         (resume_pumps Sample.opened (Value (Received "{}"))
                       (Value (Taken Sample.ping)) ++ [TasksJoined]) = Some b2
    /\ scope b2 = Left (Raises CancelledError)
    /\ forall evs b3 o,
         mcp_client.bridge_run Sample.model_validate_json Sample.model_dump_json
           b1 evs = Some b3 ->
         scope b3 = Left o -> o = Raises CancelledError.
Proof.
  apply (@body_cancellation_goes_through Sample.message Sample.model_validate_json
           Sample.model_dump_json mcp_client.closed_marker Sample.opened
           (Value (Received "{}")) (Value (Taken Sample.ping)));
    reflexivity.
Defined.


Lemma session_calls_in_order_witness :
  [mcp_client.AwaitedEstablished {| session_id := 7 |};
   mcp_client.Yield {| session_id := 7 |};
   mcp_client.DeleteSession {| session_id := 7 |}] = []
  \/ exists s,
      [mcp_client.AwaitedEstablished {| session_id := 7 |};
       mcp_client.Yield {| session_id := 7 |};
       mcp_client.DeleteSession {| session_id := 7 |}]
      = [mcp_client.AwaitedEstablished s; mcp_client.Yield s]
      \/ [mcp_client.AwaitedEstablished {| session_id := 7 |};
          mcp_client.Yield {| session_id := 7 |};
          mcp_client.DeleteSession {| session_id := 7 |}]
         = [mcp_client.AwaitedEstablished s; mcp_client.Yield s;
            mcp_client.DeleteSession s]
      \/ [mcp_client.AwaitedEstablished {| session_id := 7 |};
          mcp_client.Yield {| session_id := 7 |};
          mcp_client.DeleteSession {| session_id := 7 |}]
         = [mcp_client.AwaitedEstablished s; mcp_client.Yield s;
            mcp_client.DeleteSession s; mcp_client.AwaitedDeleted s].
Proof.
  apply (session_calls_in_order
           [Value (mcp_client.Created {| session_id := 7 |});
            Value mcp_client.Established;
            Throw (Error "tool call failed"); Throw (Error "delete failed")]
           (pc := mcp_client.SExit (Raises (Error "delete failed")))).
  reflexivity.
Defined.

Lemma session_exit_outcome_witness :
  (exists pre,
      [Value (mcp_client.Created {| session_id := 7 |});
       Value mcp_client.Established;
       Throw (Error "tool call failed"); Throw (Error "delete failed")]
      = pre ++ [Throw (Error "delete failed")])
  \/ exists s,
      [Value (mcp_client.Created {| session_id := 7 |});
       Value mcp_client.Established;
       Throw (Error "tool call failed"); Throw (Error "delete failed")]
      = [Value (mcp_client.Created s); Value mcp_client.Established;
         Throw (Error "delete failed");
         Value mcp_client.DeleteCompletion; Value mcp_client.Deleted].
Proof.
  apply (session_exit_outcome
           [Value (mcp_client.Created {| session_id := 7 |});
            Value mcp_client.Established;
            Throw (Error "tool call failed"); Throw (Error "delete failed")]
           (o := Raises (Error "delete failed"))
           (t := [mcp_client.AwaitedEstablished {| session_id := 7 |};
                  mcp_client.Yield {| session_id := 7 |};
                  mcp_client.DeleteSession {| session_id := 7 |}])).
  reflexivity.
Defined.


Lemma client_streams_delete_session_and_keep_outcome_witness :
  (exists s,
      In (mcp_client.DeleteSession s)
         (cs_calls (Sample.client_after Sample.client_session)))
  /\ (forall r s,
        cs_session (Sample.client_after Sample.client_session) = mcp_client.SExit r ->
        In (mcp_client.AwaitedDeleted s)
           (cs_calls (Sample.client_after Sample.client_session)) ->
        r = Returns tt).
Proof.
  apply (@client_streams_delete_session_and_keep_outcome Sample.message
           Sample.model_validate_json Sample.model_dump_json
           Sample.client_session (Sample.client_after Sample.client_session)
           (Sample.bridge_after Sample.quiet_exit) (Returns tt));
    reflexivity.
Defined.

Lemma one_task_per_accepted_session_witness :
  length (mcp_server.tasks (Sample.server_after Sample.two_sessions))
  = length (accepted Sample.two_sessions).
Proof.
  apply (@one_task_per_accepted_session Sample.two_sessions
           (Sample.server_after Sample.two_sessions)).
  reflexivity.
Defined.


(** The handler of the first session fails after the second session was
    accepted: the log names session 2. *)
Example first_handler_logged_as_second_session :
  mcp_server.server_run mcp_server.run_mcp_server
    (Sample.two_sessions
       ++ [mcp_server.HandlerBody 0 (Raises (Error "handler crashed"))])
  = Some {| mcp_server.loop := mcp_server.Listening;
            mcp_server.session_var := Some {| session_id := 2 |};
            mcp_server.tasks := [Some (Returns tt); None];
            mcp_server.log :=
              ["Error accepting session: listen timed out";
               "Error handling session 2: handler crashed"] |}.
Proof. reflexivity. Qed.


(** * The examples *)

(** ** The time tools of the example server *)

Section TimeServerFacts.

Variables value zone parsed_time TimeResult TimeConversionResult : Type.
Variable truthy : value -> bool.
Variable ZoneInfo : value -> result zone.
Variable McpError : string -> exn.
Variable strptime : value -> result parsed_time.
Variable is_ValueError : exn -> bool.
Variable current_time : value -> zone -> result TimeResult.
Variable converted_time :
  value -> value -> zone -> zone -> parsed_time -> result TimeConversionResult.
Variable dumps : TimeResult + TimeConversionResult -> result string.

Local Abbreviation get_zoneinfo := (mcp_server_time.get_zoneinfo ZoneInfo McpError).
Local Abbreviation convert_time :=
  (mcp_server_time.convert_time ZoneInfo McpError strptime is_ValueError
                                converted_time).
Local Abbreviation call_tool_body :=
  (mcp_server_time.call_tool_body truthy ZoneInfo McpError strptime is_ValueError
                                  current_time converted_time dumps).
Local Abbreviation call_tool :=
  (mcp_server_time.call_tool truthy ZoneInfo McpError strptime is_ValueError
                             current_time converted_time dumps).

Lemma bind_returns {A B : Type} (r : result A) (k : A -> result B) (b : B) :
  mcp_server_time.bind r k = Returns b <-> exists a, r = Returns a /\ k a = Returns b.
Proof.
  destruct r as [a|e]; simpl; split.
  - intros H. now exists a.
  - now intros (a' & [= <-] & H).
  - discriminate.
  - now intros (a' & [=] & _).
Qed.

Lemma get_zoneinfo_returns (timezone_name : value) (z : zone) :
  get_zoneinfo timezone_name = Returns z <-> ZoneInfo timezone_name = Returns z.
Proof.
  unfold mcp_server_time.get_zoneinfo.
  destruct (ZoneInfo timezone_name) as [z'|e]; [reflexivity|].
  destruct (is_Exception e); split; discriminate.
Qed.

(** [call_tool] returns a content exactly when the tool is one of the two,
    its arguments are there (the time zone of [get_current_time] being
    truthy as well), every time zone is known to [ZoneInfo], the time parses
    and the result is rendered; the content is then the one text of the
    rendering. *)
Theorem call_tool_returns (name : string) (arguments : string -> option value)
        (content : list mcp_server_time.TextContent) :
  call_tool name arguments = Returns content
  <->
  exists r json,
    dumps r = Returns json
    /\ content = [{| mcp_server_time.type := "text"; mcp_server_time.text := json |}]
    /\ match r with
       | inl current =>
           name = "get_current_time"
           /\ exists timezone z,
               arguments "timezone" = Some timezone
               /\ truthy timezone = true
               /\ ZoneInfo timezone = Returns z
               /\ current_time timezone z = Returns current
       | inr converted =>
           name = "convert_time"
           /\ exists source time target zs zt parsed,
               arguments "source_timezone" = Some source
               /\ arguments "time" = Some time
               /\ arguments "target_timezone" = Some target
               /\ ZoneInfo source = Returns zs
               /\ ZoneInfo target = Returns zt
               /\ strptime time = Returns parsed
               /\ converted_time source target zs zt parsed = Returns converted
       end.
Proof.
  unfold mcp_server_time.call_tool.
  assert (Hb : call_tool_body name arguments = Returns content <->
               call_tool name arguments = Returns content).
  { unfold mcp_server_time.call_tool.
    destruct (call_tool_body name arguments) as [c|e]; [reflexivity|].
    destruct (is_Exception e); split; discriminate. }
  unfold mcp_server_time.call_tool in Hb. rewrite <- Hb. clear Hb.
  unfold mcp_server_time.call_tool_body. rewrite bind_returns.
  split.
  - intros (r & Hr & Hd). apply bind_returns in Hd. destruct Hd as (json & Hj & [= <-]).
    exists r, json. split; [exact Hj|]. split; [reflexivity|].
    destruct (String.eqb_spec name "get_current_time") as [->|Hn1].
    + destruct (arguments "timezone") as [tz|] eqn:Ea; [|discriminate].
      destruct (truthy tz) eqn:Et; simpl in Hr; [|discriminate].
      apply bind_returns in Hr. destruct Hr as (c & Hc & [= <-]).
      split; [reflexivity|].
      unfold mcp_server_time.get_current_time in Hc. apply bind_returns in Hc.
      destruct Hc as (z & Hz & Hc). apply get_zoneinfo_returns in Hz.
      now exists tz, z.
    + destruct (String.eqb_spec name "convert_time") as [->|Hn2]; [|discriminate].
      destruct (arguments "source_timezone") as [s|] eqn:Es; [|discriminate].
      destruct (arguments "time") as [t|] eqn:Et; [|discriminate].
      destruct (arguments "target_timezone") as [g|] eqn:Eg; [|discriminate].
      apply bind_returns in Hr. destruct Hr as (c & Hc & [= <-]).
      split; [reflexivity|].
      unfold mcp_server_time.convert_time in Hc. apply bind_returns in Hc.
      destruct Hc as (zs & Hzs & Hc). apply get_zoneinfo_returns in Hzs.
      apply bind_returns in Hc.
      destruct Hc as (zt & Hzt & Hc). apply get_zoneinfo_returns in Hzt.
      apply bind_returns in Hc. destruct Hc as (p & Hp & Hc).
      exists s, t, g, zs, zt, p. repeat split; auto.
      destruct (strptime t) as [p'|e]; [exact Hp|].
      destruct (is_ValueError e); discriminate.
  - intros (r & json & Hj & -> & Hr). exists r. split.
    + destruct r as [c|c].
      * destruct Hr as (-> & tz & z & Ea & Et & Hz & Hc).
        simpl. rewrite Ea, Et. simpl.
        unfold mcp_server_time.get_current_time, mcp_server_time.get_zoneinfo.
        rewrite Hz. simpl. now rewrite Hc.
      * destruct Hr as (-> & s & t & g & zs & zt & p & Es & Et & Eg & Hs & Hg & Hp & Hc).
        simpl. rewrite Es, Et, Eg.
        unfold mcp_server_time.convert_time, mcp_server_time.get_zoneinfo.
        rewrite Hs, Hg, Hp. simpl. now rewrite Hc.
    + now rewrite Hj.
Qed.

(** Every [Exception] that leaves [call_tool] was made by its handler: its
    text is the fixed prefix followed by the text of the exception caught,
    also when that one was raised by [call_tool] itself for an unknown tool
    or a missing argument. *)
Theorem call_tool_raises_only_wrapped (name : string)
        (arguments : string -> option value) (exc : exn) :
  call_tool name arguments = Raises exc ->
  is_Exception exc = true ->
  exists e,
    is_Exception e = true
    /\ exc = Error ("Error processing mcp-server-time query: " ++ str e)
    /\ startswith "Error processing mcp-server-time query: " (str exc) = true.
Proof.
  unfold mcp_server_time.call_tool. intros H Hexc.
  destruct (call_tool_body name arguments) as [c|e]; [discriminate|].
  destruct (is_Exception e) eqn:He.
  - injection H as <-. clear Hexc. exists e. split; [exact He|].
    split; [reflexivity|]. cbn [str]. apply startswith_spec. now exists (str e).
  - injection H as <-. congruence.
Qed.

(** A time zone that [ZoneInfo] rejects is reported through both handlers:
    [get_zoneinfo] turns the error into an [McpError], and [call_tool] turns
    that one into its own error, whose text holds both prefixes. *)
Theorem invalid_timezone_is_wrapped_twice (arguments : string -> option value)
        (timezone : value) (e : exn) :
  (forall m, is_Exception (McpError m) = true) ->
  arguments "timezone" = Some timezone ->
  truthy timezone = true ->
  ZoneInfo timezone = Raises e ->
  is_Exception e = true ->
  call_tool "get_current_time" arguments
  = Raises (Error ("Error processing mcp-server-time query: "
                     ++ str (McpError ("Invalid timezone: " ++ str e)))).
Proof.
  intros HM Ha Ht Hz He.
  unfold mcp_server_time.call_tool, mcp_server_time.call_tool_body.
  simpl. rewrite Ha, Ht. simpl.
  unfold mcp_server_time.get_current_time, mcp_server_time.get_zoneinfo.
  rewrite Hz, He. simpl. now rewrite HM.
Qed.

(** [convert_time] looks at the time only when both time zones are known:
    with a time zone that [ZoneInfo] rejects, the outcome is the same for
    every time, well-formed or not. *)
Theorem convert_time_checks_zones_before_time (source time time' target : value) :
  (exists e, ZoneInfo source = Raises e) \/ (exists e, ZoneInfo target = Raises e) ->
  convert_time source time target = convert_time source time' target.
Proof.
  unfold mcp_server_time.convert_time, mcp_server_time.get_zoneinfo.
  intros [[e He]|[e He]].
  - rewrite He. now destruct (is_Exception e).
  - rewrite He. destruct (ZoneInfo source) as [zs|e']; simpl.
    + now destruct (is_Exception e).
    + now destruct (is_Exception e').
Qed.

End TimeServerFacts.


(** ** The client configuration of the examples *)

Section ConvertFacts.

Variable number : Type.
Variable nonzero : number -> bool.
Variable loads : string -> option (click_types.json number).
Variables ClientConfig tls_client_config compression_type : Type.
Variable new_insecure_client_config : click_types.json number -> result ClientConfig.
Variable TlsClientConfig :
  click_types.json number -> click_types.json number -> result tls_client_config.
Variable CompressionType : click_types.json number -> result compression_type.

Import click_types.

Local Abbreviation json := (click_types.json number).
Local Abbreviation json_data_of := (click_types.json_data_of loads).
Local Abbreviation only_insecure_tls := (click_types.only_insecure_tls nonzero).
Local Abbreviation convert :=
  (click_types.convert nonzero loads new_insecure_client_config TlsClientConfig
                       CompressionType).

Lemma bind_ok {A B : Type} (r : outcome A) (k : A -> outcome B) (b : B) :
  bind r k = Ok b <-> exists a, r = Ok a /\ k a = Ok b.
Proof.
  destruct r as [a|e]; simpl; split.
  - intros H. now exists a.
  - now intros (a' & [= <-] & H).
  - discriminate.
  - now intros (a' & [=] & _).
Qed.

Lemma getitem_ok (x v : json) (k : string) :
  getitem x k = Ok v <-> exists items, x = JDict items /\ lookup k items = Some v.
Proof.
  split.
  - destruct x as [| | | | |items]; try discriminate. simpl.
    destruct (lookup k items) as [v'|] eqn:E; [|discriminate].
    intros [= <-]. now exists items.
  - intros (items & -> & H). simpl. now rewrite H.
Qed.

Lemma optional_dict (items : list (string * json)) (k : string) :
  optional (JDict items) k = Ok (lookup k items).
Proof.
  unfold optional, py_in, getitem, bind. now destruct (lookup k items).
Qed.

Lemma lookup_in_keys (items : list (string * json)) (k : string) (v : json) :
  lookup k items = Some v -> In k (map fst items).
Proof.
  induction items as [|[k' v'] items IH]; simpl; [discriminate|].
  destruct (String.eqb_spec k k') as [->|Hn]; [now left|].
  intros H. right. now apply IH.
Qed.

(** A [dict] of two keys has no third one. *)
Lemma no_third_key (items : list (string * json)) (a b k : string) (va vb : json) :
  List.length (nodup string_dec (map fst items)) = 2 ->
  lookup a items = Some va -> lookup b items = Some vb ->
  a <> b -> k <> a -> k <> b ->
  lookup k items = None.
Proof.
  intros Hlen Ha Hb Hab Hka Hkb.
  destruct (lookup k items) as [vk|] eqn:Hk; [|reflexivity].
  exfalso.
  assert (Hincl : incl [a; b; k] (nodup string_dec (map fst items))).
  { intros x [<-|[<-|[<-|[]]]]; apply nodup_In; eapply lookup_in_keys; eauto. }
  assert (Hnd : NoDup [a; b; k]).
  { repeat constructor; simpl; intuition congruence. }
  pose proof (NoDup_incl_length Hnd Hincl) as Hle. simpl in Hle. lia.
Qed.

(** The fast path is taken only for an object with an endpoint, TLS
    settings and nothing else. *)
Lemma only_insecure_tls_true (items : list (string * json)) :
  only_insecure_tls (JDict items) = Ok true ->
  exists e t,
    lookup "endpoint" items = Some e /\ lookup "tls" items = Some t
    /\ List.length (nodup string_dec (map fst items)) = 2.
Proof.
  unfold click_types.only_insecure_tls. cbn [py_in bind].
  destruct (lookup "endpoint" items) as [e|]; [|discriminate]. cbn [negb].
  destruct (lookup "tls" items) as [t|] eqn:Et; [|discriminate]. cbn [negb].
  cbn [getitem]. rewrite Et. cbn [bind].
  destruct (get t "insecure") as [i|]; [|discriminate]. cbn [bind].
  destruct (truthy nonzero i); [|discriminate]. cbn [negb len bind].
  destruct (Nat.eqb_spec (List.length (nodup string_dec (map fst items))) 2) as [H|H];
    [|discriminate].
  intros _. now exists e, t.
Qed.

(** ** What [convert] raises *)

(** A text that is valid JSON but not an object makes [convert] raise a
    [TypeError], whatever the value is: a number, a string, a list, [true],
    [false] or [null]. *)
Theorem convert_non_object_raises_type_error (s : string) (j : json) :
  loads s = Some j ->
  (forall items, j <> JDict items) ->
  convert (Text s) = Fail TypeError.
Proof.
  intros Hl Hj. unfold click_types.convert, click_types.json_data_of.
  rewrite Hl. cbn [bind]. unfold click_types.only_insecure_tls.
  destruct j as [| | |t|l|items]; try reflexivity.
  - cbn [py_in bind]. destruct (contains "endpoint" t); cbn [negb]; [|reflexivity].
    destruct (contains "tls" t); reflexivity.
  - cbn [py_in bind].
    destruct (existsb _ l); cbn [negb]; [|reflexivity].
    destruct (existsb _ l); reflexivity.
  - now destruct (Hj items).
Qed.

(** An object without an endpoint makes [convert] raise [KeyError], whatever
    else it holds and whatever [slim_bindings] would answer. *)
Theorem convert_without_endpoint_raises_key_error (value : param number)
        (items : list (string * json)) :
  json_data_of value = Ok (JDict items) ->
  lookup "endpoint" items = None ->
  convert value = Fail (KeyError "endpoint").
Proof.
  intros Hj Hl. unfold click_types.convert. rewrite Hj. cbn [bind].
  unfold click_types.only_insecure_tls. cbn [py_in bind]. rewrite Hl.
  cbn [negb bind getitem]. now rewrite Hl.
Qed.

Lemma no_usage_error_bind {A B : Type} (r : outcome A) (k : A -> outcome B) :
  no_usage_error r -> (forall a, no_usage_error (k a)) -> no_usage_error (bind r k).
Proof.
  intros Hr Hk m. destruct r as [a|e]; simpl; [apply Hk|].
  intros [= ->]. now apply (Hr m).
Qed.

Lemma no_usage_error_ok {A : Type} (a : A) : no_usage_error (Ok a).
Proof. intros m; discriminate. Qed.

Lemma no_usage_error_if {A : Type} (c : bool) (r r' : outcome A) :
  no_usage_error r -> no_usage_error r' -> no_usage_error (if c then r else r').
Proof. now destruct c. Qed.

Lemma no_usage_error_lift {A : Type} (r : result A) : no_usage_error (lift r).
Proof. intros m. destruct r; discriminate. Qed.

Lemma no_usage_error_py_in (k : string) (x : json) : no_usage_error (py_in k x).
Proof. intros m. destruct x; discriminate. Qed.

Lemma no_usage_error_getitem (x : json) (k : string) : no_usage_error (getitem x k).
Proof.
  intros m. destruct x as [| | | | |items]; try discriminate.
  simpl. destruct (lookup k items); discriminate.
Qed.

Lemma no_usage_error_get (x : json) (k : string) : no_usage_error (get x k).
Proof. intros m. destruct x; discriminate. Qed.

Lemma no_usage_error_len (x : json) : no_usage_error (len x).
Proof. intros m. destruct x; discriminate. Qed.

Lemma no_usage_error_optional (x : json) (k : string) :
  no_usage_error (optional x k).
Proof.
  apply no_usage_error_bind; [apply no_usage_error_py_in|]. intros present.
  apply no_usage_error_if; [|apply no_usage_error_ok].
  apply no_usage_error_bind; [apply no_usage_error_getitem|].
  intros v. apply no_usage_error_ok.
Qed.

Create HintDb usage.
#[local] Hint Resolve no_usage_error_ok no_usage_error_lift no_usage_error_py_in
  no_usage_error_getitem no_usage_error_get no_usage_error_len
  no_usage_error_optional : usage.

Ltac usage :=
  repeat first
    [ apply no_usage_error_bind; [|intros ?]
    | apply no_usage_error_if
    | solve [auto with usage]
    | match goal with |- no_usage_error (match ?x with _ => _ end) => destruct x end ].

(** [convert] reports a usage error ([click.BadParameter]) exactly for a
    text that is not valid JSON; a configuration that is valid JSON but
    unusable fails with another exception. *)
Theorem bad_parameter_only_for_invalid_json (value : param number) (m : string) :
  convert value = Fail (BadParameter m)
  <-> exists s, value = Text s /\ loads s = None
                /\ m = (s ++ " is not valid JSON")%string.
Proof.
  split.
  - unfold click_types.convert, click_types.json_data_of.
    destruct value as [items|s].
    + cbn [bind]. intros H. exfalso. revert H.
      match goal with |- ?r = _ -> False => assert (Hn : no_usage_error r) end;
        [|apply Hn].
      unfold click_types.only_insecure_tls. usage.
    + destruct (loads s) as [j|] eqn:El.
      * cbn [bind]. intros H. exfalso. revert H.
        match goal with |- ?r = _ -> False => assert (Hn : no_usage_error r) end;
          [|apply Hn].
        unfold click_types.only_insecure_tls. usage.
      * cbn [bind]. intros [= <-]. now exists s.
  - intros (s & -> & Hl & ->). unfold click_types.convert, click_types.json_data_of.
    now rewrite Hl.
Qed.

(** ** What [convert] returns *)

(** When [convert] returns a configuration, the value is an object with an
    endpoint, the configuration is the one [new_insecure_client_config] made
    for that endpoint, and its optional fields are those of the object,
    whether the fast path was taken or not. *)
Theorem convert_returns (value : param number)
        (c : config number ClientConfig tls_client_config compression_type) :
  convert value = Ok c ->
  exists items endpoint,
    json_data_of value = Ok (JDict items)
    /\ lookup "endpoint" items = Some endpoint
    /\ new_insecure_client_config endpoint = Returns (base c)
    /\ origin c = lookup "origin" items
    /\ server_name c = lookup "server_name" items
    /\ rate_limit c = lookup "rate_limit" items
    /\ match lookup "compression" items with
       | Some name => exists k, CompressionType name = Returns k
                                /\ compression c = Some k
       | None => compression c = None
       end.
Proof.
  unfold click_types.convert. intros H.
  apply bind_ok in H. destruct H as (j & Hj & H).
  apply bind_ok in H. destruct H as (shortcut & Hs & H).
  assert (Hd : exists items endpoint b,
             j = JDict items /\ lookup "endpoint" items = Some endpoint
             /\ new_insecure_client_config endpoint = Returns b
             /\ base c = b).
  { destruct shortcut;
      apply bind_ok in H; destruct H as (endpoint & He & H);
      apply getitem_ok in He; destruct He as (items & -> & He);
      apply bind_ok in H; destruct H as (b & Hb & H);
      exists items, endpoint, b; (split; [reflexivity|]); (split; [exact He|]);
      (assert (Hb' : new_insecure_client_config endpoint = Returns b)
        by (destruct (new_insecure_client_config endpoint); simpl in Hb;
            congruence)); (split; [exact Hb'|]).
    - now injection H as <-.
    - rewrite optional_dict in H. cbn [bind] in H.
      apply bind_ok in H. destruct H as (t & _ & H).
      rewrite !optional_dict in H. cbn [bind] in H.
      apply bind_ok in H. destruct H as (k & _ & H).
      now injection H as <-. }
  destruct Hd as (items & endpoint & b & -> & He & Hb & Hbase).
  exists items, endpoint. split; [exact Hj|]. split; [exact He|].
  split; [now rewrite Hbase|].
  destruct shortcut.
  - apply only_insecure_tls_true in Hs. destruct Hs as (e & t & He' & Ht & Hlen).
    assert (Hno : forall k, k <> "endpoint" -> k <> "tls" -> lookup k items = None).
    { intros k H1 H2.
      apply (@no_third_key items "endpoint" "tls" k e t); auto. discriminate. }
    cbn [getitem] in H. rewrite He in H. cbn [bind] in H.
    rewrite Hb in H. cbn [lift bind] in H. injection H as <-. cbn.
    rewrite !Hno by discriminate. repeat split; reflexivity.
  - cbn [getitem] in H. rewrite He in H. cbn [bind] in H.
    rewrite Hb in H. cbn [lift bind] in H.
    rewrite optional_dict in H. cbn [bind] in H.
    apply bind_ok in H. destruct H as (t & _ & H).
    rewrite !optional_dict in H. cbn [bind] in H.
    apply bind_ok in H. destruct H as (k & Hk & H).
    injection H as <-. cbn. repeat split; try reflexivity.
    destruct (lookup "compression" items) as [name|].
    + apply bind_ok in Hk. destruct Hk as (k' & Hk' & [= <-]).
      exists k'. split; [|reflexivity].
      destruct (CompressionType name); simpl in Hk'; congruence.
    + now injection Hk as <-.
Qed.

End ConvertFacts.


(** ** The examples at concrete inputs *)

Lemma call_tool_raises_only_wrapped_witness :
  exists e,
    is_Exception e = true
    /\ Error "Error processing mcp-server-time query: Unknown tool: launch"
       = Error ("Error processing mcp-server-time query: " ++ str e)
    /\ startswith "Error processing mcp-server-time query: "
         (str (Error "Error processing mcp-server-time query: Unknown tool: launch"))
       = true.
Proof.
  apply (@call_tool_raises_only_wrapped
           TimeSample.value string string string string
           TimeSample.truthy TimeSample.ZoneInfo TimeSample.McpError
           TimeSample.strptime TimeSample.is_ValueError TimeSample.current_time
           TimeSample.converted_time TimeSample.dumps
           "launch" TimeSample.on_mars);
    reflexivity.
Defined.

Lemma invalid_timezone_is_wrapped_twice_witness :
  TimeSample.call_tool "get_current_time" TimeSample.on_mars
  = Raises (Error ("Error processing mcp-server-time query: "
                     ++ str (TimeSample.McpError
                               ("Invalid timezone: "
                                  ++ str (Error "'No time zone found with key Mars/Olympus'"))))).
Proof.
  apply (@invalid_timezone_is_wrapped_twice
           TimeSample.value string string string string
           TimeSample.truthy TimeSample.ZoneInfo TimeSample.McpError
           TimeSample.strptime TimeSample.is_ValueError TimeSample.current_time
           TimeSample.converted_time TimeSample.dumps
           TimeSample.on_mars "Mars/Olympus"
           (Error "'No time zone found with key Mars/Olympus'"));
    reflexivity.
Defined.

Lemma convert_time_checks_zones_before_time_witness :
  TimeSample.convert_time "Mars/Olympus" "09:30" "Europe/Rome"
  = TimeSample.convert_time "Mars/Olympus" "late" "Europe/Rome".
Proof.
  apply (@convert_time_checks_zones_before_time
           TimeSample.value string string string
           TimeSample.ZoneInfo TimeSample.McpError
           TimeSample.strptime TimeSample.is_ValueError
           TimeSample.converted_time
           "Mars/Olympus" "09:30" "late" "Europe/Rome").
  left. eexists. reflexivity.
Defined.

Lemma convert_non_object_raises_type_error_witness :
  ConfigSample.convert (click_types.Text "[1]") = click_types.Fail click_types.TypeError.
Proof.
  apply (@convert_non_object_raises_type_error
           ConfigSample.number ConfigSample.nonzero ConfigSample.loads
           string (bool * bool)%type string
           ConfigSample.new_insecure_client_config ConfigSample.TlsClientConfig
           ConfigSample.CompressionType
           "[1]" (click_types.JList [click_types.JNumber 1])).
  - reflexivity.
  - discriminate.
Defined.

Lemma convert_without_endpoint_raises_key_error_witness :
  ConfigSample.convert (click_types.Text "{}")
  = click_types.Fail (click_types.KeyError "endpoint").
Proof.
  apply (@convert_without_endpoint_raises_key_error
           ConfigSample.number ConfigSample.nonzero ConfigSample.loads
           string (bool * bool)%type string
           ConfigSample.new_insecure_client_config ConfigSample.TlsClientConfig
           ConfigSample.CompressionType
           (click_types.Text "{}") []);
    reflexivity.
Defined.

Lemma convert_returns_witness :
  exists items endpoint,
    click_types.json_data_of ConfigSample.loads (click_types.Dict ConfigSample.verified)
    = click_types.Ok (click_types.JDict items)
    /\ click_types.lookup "endpoint" items = Some endpoint
    /\ ConfigSample.new_insecure_client_config endpoint
       = Returns (click_types.base ConfigSample.verified_config)
    /\ click_types.origin ConfigSample.verified_config
       = click_types.lookup "origin" items
    /\ click_types.server_name ConfigSample.verified_config
       = click_types.lookup "server_name" items
    /\ click_types.rate_limit ConfigSample.verified_config
       = click_types.lookup "rate_limit" items
    /\ match click_types.lookup "compression" items with
       | Some name =>
           exists k, ConfigSample.CompressionType name = Returns k
                     /\ click_types.compression ConfigSample.verified_config = Some k
       | None => click_types.compression ConfigSample.verified_config = None
       end.
Proof.
  apply (@convert_returns
           ConfigSample.number ConfigSample.nonzero ConfigSample.loads
           string (bool * bool)%type string
           ConfigSample.new_insecure_client_config ConfigSample.TlsClientConfig
           ConfigSample.CompressionType
           (click_types.Dict ConfigSample.verified) ConfigSample.verified_config).
  reflexivity.
Defined.
